(** * Manager gateway of Backend.AI: status gate, status watch loop,
      announcements, scheduler operations and the health-check fan-out.

    A shallow embedding of [src/ai/backend/gateway/manager.py].  Handlers are
    functions in a small state-and-exception monad over a [World] holding what
    the handlers reach through [request.app]: the configuration store (etcd),
    the memo of [get_manager_status], the [agents] table, the session
    registry, and a chronological log of the side effects performed. *)

From Stdlib Require Import ZArith String List Lia.
From stdpp Require Import base option list gmap strings fin_maps fin_sets relations.

Local Open Scope string_scope.
Local Open Scope list_scope.
Local Open Scope nat_scope.
Set Warnings "-register-all".

(** ** Data model *)

(** JSON values: request bodies, health payloads and response bodies.  An
    object keeps its keys in insertion order, as a Python [dict] does. *)
Inductive json :=
  | JNull
  | JBool (b : bool)
  | JNum (z : Z)
  | JStr (s : string)
  | JList (l : list json)
  | JObj (o : list (string * json)).

(** Python truth value of a decoded JSON value ([if force_kill:]). *)
Definition truthy (v : json) : bool :=
  match v with
  | JNull => false
  | JBool b => b
  | JNum z => negb (z =? 0)%Z
  | JStr s => negb (String.eqb s "")
  | JList l => negb (bool_decide (l = []))
  | JObj o => negb (bool_decide (o = []))
  end.

(** [d[k]] / [k in d] on an insertion-ordered dict. *)
Fixpoint dict_get (k : string) (d : list (string * json)) : option json :=
  match d with
  | [] => None
  | (k', v) :: d' => if String.eqb k k' then Some v else dict_get k d'
  end.

(** [d[k] = v]: an existing key keeps its position, a new key goes last. *)
Fixpoint dict_set (k : string) (v : json) (d : list (string * json))
  : list (string * json) :=
  match d with
  | [] => [(k, v)]
  | (k', v') :: d' =>
      if String.eqb k k' then (k', v) :: d' else (k', v') :: dict_set k v d'
  end.

(** [d.update(other)]. *)
Definition dict_update (d other : list (string * json)) : list (string * json) :=
  fold_left (λ acc kv, dict_set kv.1 kv.2 acc) other d.

(** Modelled from the spec: the [ManagerStatus] enumeration is declared in the
    package's [__init__], outside this file; the spec gives it "at least
    RUNNING and FROZEN; extensible".  [OtherStatus] stands for any further
    member. *)
Inductive ManagerStatus :=
  | RUNNING
  | FROZEN
  | OtherStatus (name : string).

#[global] Instance ManagerStatus_eq_dec : EqDecision ManagerStatus.
Proof. solve_decision. Defined.

#[global] Instance ManagerStatus_countable : Countable ManagerStatus.
Proof.
  refine (inj_countable'
    (λ s, match s with
          | RUNNING => inl true
          | FROZEN => inl false
          | OtherStatus n => inr n
          end)
    (λ c, match c with
          | inl true => RUNNING
          | inl false => FROZEN
          | inr n => OtherStatus n
          end) _).
  by intros [].
Defined.

(** Modelled from the spec: [AgentStatus] lives in the models package; the
    health check only tells ALIVE rows from the others. *)
Inductive AgentStatus :=
  | ALIVE
  | OtherAgentStatus (name : string).

#[global] Instance AgentStatus_eq_dec : EqDecision AgentStatus.
Proof. solve_decision. Defined.

(** [class SchedulerOps(enum.Enum)]. *)
Inductive SchedulerOps :=
  | INCLUDE_AGENTS
  | EXCLUDE_AGENTS.

#[global] Instance SchedulerOps_eq_dec : EqDecision SchedulerOps.
Proof. solve_decision. Defined.

Definition SchedulerOps_value (op : SchedulerOps) : string :=
  match op with
  | INCLUDE_AGENTS => "include-agents"
  | EXCLUDE_AGENTS => "exclude-agents"
  end.

(** [str(op)], as an f-string formats a member. *)
Definition SchedulerOps_str (op : SchedulerOps) : string :=
  match op with
  | INCLUDE_AGENTS => "SchedulerOps.INCLUDE_AGENTS"
  | EXCLUDE_AGENTS => "SchedulerOps.EXCLUDE_AGENTS"
  end.

(** The exceptions the handlers raise or let through.  [ServiceUnavailable]
    carries the allowed set its message is formatted from. *)
Inductive Exn :=
  | ServerFrozen
  | ServiceUnavailable (allowed : gset ManagerStatus)
  | InvalidAPIParameters (extra_msg : string)
  | InstanceNotFound
  | GenericBadRequest (msg : string)
  | CancelledError
  | TimeoutError
  | TypeError
  | KeyError (key : string)
  | OtherError (name : string).

#[global] Instance Exn_eq_dec : EqDecision Exn.
Proof. solve_decision. Defined.

(** One row of the [agents] table; the table is keyed by its primary key
    [agents.c.id]. *)
Record AgentRow := mkAgentRow {
  agent_status : AgentStatus;
  schedulable : bool;
}.

Definition set_schedulable (b : bool) (r : AgentRow) : AgentRow :=
  {| agent_status := agent_status r; schedulable := b |}.

(** Side effects on the collaborators, in the order they are performed. *)
Inductive Effect :=
  | EDbBegin
  | EDbUpdateSchedulable (flag : bool) (ids : list string) (rowcount : nat)
  | EDbSelectAlive
  | EDbCommit
  | EDbRollback
  | EKillAllSessions
  | EStatusWrite (s : ManagerStatus)
  | EProduceEvent (name : string)
  | EProbeSpawn (agent_id : string).

#[global] Instance Effect_eq_dec : EqDecision Effect.
Proof. solve_decision. Defined.

(** What a handler can change. *)
Record World := mkWorld {
  manager_status : ManagerStatus;        (* the status value in the store *)
  status_cache : option ManagerStatus;   (* memo of [get_manager_status] *)
  etcd : gmap string string;             (* remaining keys of the store *)
  agents : gmap string AgentRow;         (* the [agents] table *)
  sessions : list string;                (* sessions held by the registry *)
  trace : list Effect;                   (* effects so far, oldest first *)
}.

Definition set_manager_status (s : ManagerStatus) (w : World) : World :=
  mkWorld s (status_cache w) (etcd w) (agents w) (sessions w) (trace w).
Definition set_status_cache (c : option ManagerStatus) (w : World) : World :=
  mkWorld (manager_status w) c (etcd w) (agents w) (sessions w) (trace w).
Definition set_etcd (e : gmap string string) (w : World) : World :=
  mkWorld (manager_status w) (status_cache w) e (agents w) (sessions w) (trace w).
Definition set_agents (a : gmap string AgentRow) (w : World) : World :=
  mkWorld (manager_status w) (status_cache w) (etcd w) a (sessions w) (trace w).
Definition set_sessions (s : list string) (w : World) : World :=
  mkWorld (manager_status w) (status_cache w) (etcd w) (agents w) s (trace w).
Definition log_effect (e : Effect) (w : World) : World :=
  mkWorld (manager_status w) (status_cache w) (etcd w) (agents w) (sessions w)
          (trace w ++ [e]).

(** ** The handler monad: state plus Python exceptions *)

Inductive Result (A : Type) :=
  | Ok (a : A)
  | Raise (e : Exn).
Arguments Ok {A} a.
Arguments Raise {A} e.

Definition M (A : Type) : Type := World → Result A * World.

#[global] Instance M_ret : MRet M := λ A a w, (Ok a, w).

(** An exception leaves the state as it was when it was raised. *)
#[global] Instance M_bind : MBind M := λ A B f m w,
  match m w with
  | (Ok a, w') => f a w'
  | (Raise e, w') => (Raise e, w')
  end.

Definition raise {A} (e : Exn) : M A := λ w, (Raise e, w).
Definition modify (f : World → World) : M () := λ w, (Ok (), f w).
Definition emit (e : Effect) : M () := modify (log_effect e).

(** [try: body  except: handler]. *)
Definition try_except {A} (body : M A) (handler : Exn → M A) : M A := λ w,
  match body w with
  | (Ok a, w') => (Ok a, w')
  | (Raise e, w') => handler e w'
  end.

(** HTTP responses: a status code and, for [web.json_response], a body. *)
Record Response := mkResponse {
  status_code : Z;
  body : option json;
}.

Definition no_content : Response := mkResponse 204 None.
Definition json_response (v : json) : Response := mkResponse 200 (Some v).

(** ** The configuration server: status store and its memo *)

(** Modelled from the spec: [config_server.get_manager_status] is defined in
    the manager's configuration module, outside this file: "Contract:
    get_status() -> ManagerStatus, memoized; invalidate() clears the memo".
    A hit answers from the memo; a miss reads the store and fills the memo. *)
Definition get_manager_status : M ManagerStatus := λ w,
  match status_cache w with
  | Some s => (Ok s, w)
  | None => (Ok (manager_status w), set_status_cache (Some (manager_status w)) w)
  end.

(** [get_manager_status.cache_clear()]. *)
Definition cache_clear : M () := modify (set_status_cache None).

(** Modelled from the spec: [config_server.update_manager_status], one write
    of the status value to the store. *)
Definition config_update_manager_status (s : ManagerStatus) : M () :=
  emit (EStatusWrite s);; modify (set_manager_status s).

(** ** StatusGate: [server_status_required] *)

Definition Handler (Req : Type) : Type := Req → M Response.

(** The decorator: [wrapped] reads the status, rejects when it is not in
    [allowed_status] (FROZEN with its own exception), and calls the handler
    otherwise. *)
Definition server_status_required {Req} (allowed_status : gset ManagerStatus)
    (handler : Handler Req) : Handler Req := λ request,
  status ← get_manager_status;
  if bool_decide (status ∉ allowed_status) then
    if bool_decide (status = FROZEN) then raise ServerFrozen
    else raise (ServiceUnavailable allowed_status)
  else handler request.

Definition READ_ALLOWED : gset ManagerStatus := {[RUNNING; FROZEN]}.
Definition ALL_ALLOWED : gset ManagerStatus := {[RUNNING]}.

(** [GQLMutationUnfrozenRequiredMiddleware.resolve]: [operation] is
    [info.operation.operation], [status] is [info.context['manager_status']],
    [next] the rest of the resolver chain. *)
Definition gql_mutation_unfrozen_resolve {A} (operation : string)
    (status : ManagerStatus) (next : M A) : M A :=
  if String.eqb operation "mutation" && bool_decide (status = FROZEN)
  then raise ServerFrozen
  else next.

(** ** StatusWatchLoop: [detect_status_update] *)

(** One event of the store's watch stream ([ev.event]). *)
Record WatchEvent := mkWatchEvent {
  event : string;
}.

(** How the subscription stops yielding: the generator is exhausted, or
    awaiting the next event raises. *)
Inductive StreamEnd :=
  | Exhausted
  | Raises (e : Exn).

(** The body of the [async for]: on a put, clear the memo and fetch again
    (which warms it); [log.debug] has no effect on the world. *)
Definition on_watch_event (ev : WatchEvent) : M () :=
  if String.eqb (event ev) "put" then
    cache_clear;;
    updated_status ← get_manager_status;
    mret ()
  else mret ().

(** [async for ev in agen: ...] over the events the stream yields before it
    stops with [fin]. *)
Fixpoint watch_loop (evs : list WatchEvent) (fin : StreamEnd) : M () :=
  match evs with
  | [] =>
      match fin with
      | Exhausted => mret ()
      | Raises e => raise e
      end
  | ev :: rest => on_watch_event ev;; watch_loop rest fin
  end.

Definition detect_status_update (evs : list WatchEvent) (fin : StreamEnd) : M () :=
  try_except (watch_loop evs fin)
    (λ e, match e with
          | CancelledError => mret ()
          | _ => raise e
          end).

(** ** Manager status update: [update_manager_status] *)

(** The body the handler reads again with [request.json()], after the
    decorator validated it: [status] is the member its ['status'] names,
    [force_kill] the raw value of that key, absent when the body has none. *)
Record StatusUpdateBody := mkStatusUpdateBody {
  status : ManagerStatus;
  force_kill : option json;
}.

(** Modelled from the spec: [registry.kill_all_sessions] belongs to the agent
    registry, outside this file: "all active sessions are torn down". *)
Definition kill_all_sessions : M () :=
  emit EKillAllSessions;; modify (set_sessions []).

(** The handler.  [params['force_kill']] on the raw body raises [KeyError]
    when the key is absent, which the [except] clauses (JSONDecodeError,
    AssertionError, ValueError) do not catch.  Then: kill if asked to, write
    the status, answer 204. *)
Definition update_manager_status (params : StatusUpdateBody) : M Response :=
  match force_kill params with
  | None => raise (KeyError "force_kill")
  | Some force_kill =>
      (if truthy force_kill then kill_all_sessions else mret ());;
      config_update_manager_status (status params);;
      mret no_content
  end.

(** ** Announcements: [get_announcement], [update_announcement] *)

Definition announcement_key : string := "manager/announcement".

Definition etcd_get (k : string) : M (option string) := λ w, (Ok (etcd w !! k), w).
Definition etcd_put (k v : string) : M () :=
  modify (λ w, set_etcd (<[k := v]> (etcd w)) w).
Definition etcd_delete (k : string) : M () :=
  modify (λ w, set_etcd (delete k (etcd w)) w).

Definition get_announcement : M Response :=
  data ← etcd_get announcement_key;
  let ret :=
    match data with
    | None => JObj [("enabled", JBool false); ("message", JStr "")]
    | Some data => JObj [("enabled", JBool true); ("message", JStr data)]
    end in
  mret (json_response ret).

(** The checked parameters: [enabled] is a bool ([t.ToBool]), [message] is
    [None] or a string. *)
Record AnnouncementParams := mkAnnouncementParams {
  enabled : bool;
  message : option string;
}.

Definition update_announcement (params : AnnouncementParams) : M Response :=
  (if enabled params then
     match message params with
     | None | Some "" =>
         raise (InvalidAPIParameters
                  "Empty message not allowed to enable announcement")
     | Some msg => etcd_put announcement_key msg
     end
   else etcd_delete announcement_key);;
  mret no_content.

(** ** SchedulabilityController: [perform_scheduler_ops] *)

(** [t.List(t.String)] on the raw ['args']: a JSON list of non-blank strings
    ([t.String] refuses the empty string unless [allow_blank] is set). *)
Definition check_string (v : json) : option string :=
  match v with
  | JStr s => if String.eqb s "" then None else Some s
  | _ => None
  end.

Definition check_list_of_strings (v : json) : option (list string) :=
  match v with
  | JList l => mapM check_string l
  | _ => None
  end.

Definition iv_scheduler_ops_args (op : SchedulerOps) : json → option (list string) :=
  match op with
  | INCLUDE_AGENTS => check_list_of_strings
  | EXCLUDE_AGENTS => check_list_of_strings
  end.

(** [async with dbpool.acquire() as conn, conn.begin(): body].  The block is
    left through the transaction's context manager: a normal exit commits; an
    exception raised inside the block reaches [__aexit__], which rolls the
    transaction back (the table is as it was at [begin]) and lets the
    exception continue. *)
Definition with_transaction {A} (body : M A) : M A := λ w,
  match body (log_effect EDbBegin w) with
  | (Ok a, w') => (Ok a, log_effect EDbCommit w')
  | (Raise e, w') => (Raise e, log_effect EDbRollback (set_agents (agents w) w'))
  end.

(** Primary keys of the rows selected by [agents.c.id.in_(args)]. *)
Definition matched_ids (args : list string) (tbl : gmap string AgentRow) : gset string :=
  filter (λ id, id ∈ args) (dom tbl).

(** [UPDATE agents SET schedulable = flag WHERE id IN args]; the result's
    [rowcount] is the number of rows the WHERE clause selected. *)
Definition update_schedulable (flag : bool) (args : list string)
    (tbl : gmap string AgentRow) : gmap string AgentRow :=
  map_imap (λ id row,
    Some (if bool_decide (id ∈ args) then set_schedulable flag row else row)) tbl.

Definition execute_update_schedulable (flag : bool) (args : list string) : M nat := λ w,
  let rowcount := size (matched_ids args (agents w)) in
  (Ok rowcount,
   log_effect (EDbUpdateSchedulable flag args rowcount)
     (set_agents (update_schedulable flag args (agents w)) w)).

(** [event_dispatcher.produce_event(name)]. *)
Definition produce_event (name : string) : M () := emit (EProduceEvent name).

Definition perform_scheduler_ops (op : SchedulerOps) (raw_args : json) : M Response :=
  match iv_scheduler_ops_args op raw_args with
  | None =>
      raise (InvalidAPIParameters
               ("Input validation failed for args with " +:+ SchedulerOps_str op))
  | Some args =>
      if bool_decide (op ∈ [INCLUDE_AGENTS; EXCLUDE_AGENTS]) then
        let schedulable := bool_decide (op = INCLUDE_AGENTS) in
        (* inside the transaction block: execute, compare, raise *)
        with_transaction (
          rowcount ← execute_update_schedulable schedulable args;
          if bool_decide (rowcount < length args) then raise InstanceNotFound
          else mret ());;
        (* after the block: trigger the scheduler *)
        (if schedulable then produce_event "do_schedule" else mret ());;
        mret no_content
      else raise (GenericBadRequest "Unknown scheduler operation")
  end.

(** ** The job scheduler used by the health check ([aiojobs]) *)

Module Scheduler.
Section Scheduler.
Context {J : Type}.

(** Modelled from the spec: the scheduler is the [aiojobs] library's, outside
    this repository's files: "Concurrency is capped at a fixed limit ...
    excess requests queue and are dispatched as slots free".  A scheduler
    has a concurrency [limit], the jobs in flight, and the queue of jobs
    waiting for a slot, oldest first. *)
Record t := mk {
  limit : nat;
  active : list J;
  pending : list J;
}.

(** [aiojobs.create_scheduler(limit=n)]. *)
Definition create_scheduler (n : nat) : t := mk n [] [].

Definition active_count (s : t) : nat := length (active s).
Definition pending_count (s : t) : nat := length (pending s).

(** [scheduler.spawn(coro)]: started at once while fewer than [limit] jobs
    are in flight, queued otherwise. *)
Definition spawn (s : t) (job : J) : t :=
  if bool_decide (active_count s < limit s)
  then mk (limit s) (active s ++ [job]) (pending s)
  else mk (limit s) (active s) (pending s ++ [job]).

(** The scheduler's done callback for the job at position [i] of the
    active ones: the job leaves, and [limit - active_count] jobs are
    started from the head of the queue. *)
Definition done (s : t) (i : nat) : t :=
  let remaining := delete i (active s) in
  let ntodo := limit s - length remaining in
  mk (limit s) (remaining ++ take ntodo (pending s)) (drop ntodo (pending s)).

(** What can happen to a scheduler: a job is spawned, or some job in
    flight finishes (by returning or by raising). *)
Inductive step : t → t → Prop :=
  | step_spawn s job : step s (spawn s job)
  | step_done s i : i < active_count s → step s (done s i).

(** One run of the event loop until no job is in flight: the oldest job in
    flight finishes first.  [run_job] is the job's outcome; the outcomes are
    collected per job, for [job.wait()]. *)
Fixpoint run_until_idle {R} (run_job : J → R) (fuel : nat) (s : t)
    (finished : list (J * R)) : t * list (J * R) :=
  match fuel with
  | 0 => (s, finished)
  | S fuel' =>
      match active s with
      | [] => (s, finished)
      | job :: _ =>
          run_until_idle run_job fuel' (done s 0) (finished ++ [(job, run_job job)])
      end
  end.

(** The jobs in flight. *)
Definition in_flight (s : t) : nat := active_count s.

(** No more jobs in flight than the limit, and a job waits only while every
    slot is taken. *)
Definition wf (s : t) : Prop :=
  active_count s ≤ limit s ∧ (pending s = [] ∨ active_count s = limit s).

(** The states a scheduler created with limit [n] can be in, whatever is
    spawned and in whatever order the jobs finish. *)
Definition reachable (n : nat) (s : t) : Prop := rtc step (create_scheduler n) s.
End Scheduler.
Arguments t : clear implicits.
End Scheduler.

(** ** HealthAggregator: [health_check] *)

(** Modelled from the spec: [get_watcher_info] is defined in the resource
    module, outside this file: it resolves "a per-agent watcher endpoint
    (address + auth token) via an external registry lookup", or nothing. *)
Record WatcherInfo := mkWatcherInfo {
  addr : string;
  token : string;
}.

(** What a watcher endpoint does with [GET addr/health]: it answers after
    [latency] time units with a status and a JSON body, or never answers. *)
Inductive ProbeReply :=
  | Reply (latency : Z) (http_status : Z) (payload : json)
  | NoReply.

(** What the health check reads and does not change. *)
Record Env := mkEnv {
  manager_nodes_info : list (string * json);  (* [get_manager_nodes_info()] *)
  host_health : list (string * json);         (* [host_health_check()] *)
  manager_version : string;                   (* [__version__] *)
  LATEST_API_VERSION : string;
  watchers : gmap string WatcherInfo;         (* [get_watcher_info] *)
  network : gmap string ProbeReply;           (* endpoints, by address *)
}.

(** The checked parameters: [agent_ids] is a list of [None] or strings
    ([t.List(t.Null | t.String)]). *)
Record HealthCheckParams := mkHealthCheckParams {
  agent_ids : list (option string);
  with_all_agents : bool;
}.

(** [','.join(ids)]: a [TypeError] when an item is not a string. *)
Definition join_ids (ids : list (option string)) : option (list string) :=
  mapM (λ id, id) ids.

(** [SELECT id FROM agents WHERE status = ALIVE], collected into a list. *)
Definition select_alive_ids : M (list string) := λ w,
  (Ok ((map_to_list (filter (λ kv, agent_status kv.2 = ALIVE) (agents w))).*1),
   log_effect EDbSelectAlive w).

(** [with _timeout(10.0)]. *)
Definition probe_deadline : Z := 10.

(** [_agent_health_check(sess, agent_id)].  Leaving the [with _timeout] block
    at the deadline raises [TimeoutError]; nothing in the function catches it. *)
Definition _agent_health_check (env : Env) (agent_id : string) : Result json :=
  let none_result := JObj [(agent_id, JObj [])] in
  match watchers env !! agent_id with
  | None => Ok none_result
  | Some watcher_info =>
      match network env !! addr watcher_info with
      | Some (Reply latency resp_status payload) =>
          if bool_decide (probe_deadline ≤ latency)%Z then Raise TimeoutError
          else if bool_decide (resp_status = 200%Z) then Ok payload
          else Ok none_result
      | Some NoReply | None => Raise TimeoutError
      end
  end.

(** A job is one spawned coroutine: its position in the spawn order and the
    agent it probes. *)
Definition Job : Type := nat * string.

(** [job.wait()]: the outcome of the finished job. *)
Definition job_wait (finished : list (Job * Result json)) (job : Job) : Result json :=
  match list_find (λ jr, jr.1 = job) finished with
  | Some (_, (_, r)) => r
  | None => Raise (OtherError "job did not run")
  end.

(** [asyncio.gather] of awaitables without [return_exceptions]: the results
    in the order of the awaitables, or the exception of one that raised. *)
Fixpoint gather {A} (outcomes : list (Result A)) : Result (list A) :=
  match outcomes with
  | [] => Ok []
  | Raise e :: _ => Raise e
  | Ok a :: rest =>
      match gather rest with
      | Ok l => Ok (a :: l)
      | Raise e => Raise e
      end
  end.

Definition health_check_limit : nat := 4.

(** The jobs, and the scheduler once every [scheduler.spawn] of the first
    [gather] has returned. *)
Definition health_check_jobs (ids : list string) : list Job := imap (λ i aid, (i, aid)) ids.

Definition health_check_scheduler (ids : list string) : Scheduler.t Job :=
  foldl Scheduler.spawn (Scheduler.create_scheduler health_check_limit)
        (health_check_jobs ids).

(** The fan-out: spawn one job per agent id on a scheduler of limit 4, wait
    for all of them, and return their results in the order of the ids. *)
Definition fan_out (env : Env) (ids : list string) : M (list json) :=
  let jobs := health_check_jobs ids in
  let scheduler := health_check_scheduler ids in
  foldr (λ aid rest, emit (EProbeSpawn aid);; rest) (mret ()) ids;;
  let finished :=
    (Scheduler.run_until_idle (λ job, _agent_health_check env job.2)
       (length jobs) scheduler []).2 in
  match gather (job_wait finished <$> jobs) with
  | Ok agent_infos => mret agent_infos
  | Raise e => raise e
  end.

(** [_id]: the value under the empty key, else the first key, else [''].  *)
Definition manager_id (etcd_info : list (string * json)) : json :=
  match dict_get "" etcd_info with
  | Some v => v
  | None =>
      match etcd_info with
      | (k, _) :: _ => JStr k
      | [] => JStr ""
      end
  end.

Definition health_check (env : Env) (params : HealthCheckParams) : M Response :=
  (* log.info('HEALTH_CHECK (agents:[{}])', ','.join(params['agent_ids'])) *)
  match join_ids (agent_ids params) with
  | None => raise TypeError
  | Some given_ids =>
      (* if params['with_all_agents'] and params['agent_ids']: raise ... *)
      if with_all_agents params && negb (bool_decide (given_ids = [])) then
        raise (InvalidAPIParameters
                 "either one of with_all_agents or agent_ids should be given")
      else
        (* if params['with_all_agents']: params['agent_ids'] = the ALIVE ids *)
        ids ← (if with_all_agents params then with_transaction select_alive_ids
               else mret given_ids);
        (* the manager's own entry, updated with host_health_check() *)
        let _id := manager_id (manager_nodes_info env) in
        let manager :=
          dict_update
            [("id", _id); ("type", JStr "manager");
             ("version", JStr (manager_version env));
             ("api_version", JStr (LATEST_API_VERSION env))]
            (host_health env) in
        let result := [("managers", JList [JObj manager])] in
        (* if not params['agent_ids']: return web.json_response(result) *)
        if bool_decide (ids = []) then mret (json_response (JObj result))
        else
          agent_infos ← fan_out env ids;
          (* result['agents'] = [...]; return web.json_response(result) *)
          mret (json_response (JObj (dict_set "agents" (JList agent_infos) result)))
  end.

(** ** Status report: [fetch_manager_status] *)

(** One row of the [kernels] table, as far as the handler's query reads it. *)
Record KernelRow := mkKernelRow {
  cluster_role : string;
  kernel_status : string;
}.

(** What the status report reads and does not change: the node information
    of the store, the [manager] section of the configuration (its address
    already passed through [str]), the [kernels] table, and the constants
    declared outside this file: [DEFAULT_ROLE], the list
    [AGENT_RESOURCE_OCCUPYING_KERNEL_STATUSES], and the [value] of each
    [ManagerStatus] member. *)
Record StatusEnv := mkStatusEnv {
  status_nodes_info : list (string * json);
  num_proc : json;
  service_addr : string;
  heartbeat_timeout : json;
  ssl_enabled : json;
  kernels : list KernelRow;
  DEFAULT_ROLE : string;
  AGENT_RESOURCE_OCCUPYING_KERNEL_STATUSES : list string;
  ManagerStatus_value : ManagerStatus → string;
}.

(** [SELECT count(id) FROM kernels WHERE cluster_role = DEFAULT_ROLE AND
    status IN AGENT_RESOURCE_OCCUPYING_KERNEL_STATUSES]. *)
Definition count_active_sessions (env : StatusEnv) : nat :=
  length (filter (λ k, cluster_role k = DEFAULT_ROLE env
                       ∧ kernel_status k ∈ AGENT_RESOURCE_OCCUPYING_KERNEL_STATUSES env)
                 (kernels env)).

(** The handler: read the status, count the sessions inside a transaction,
    answer with one node entry and the two legacy fields; whatever is raised
    on the way is logged and raised again. *)
Definition fetch_manager_status (env : StatusEnv) : M Response :=
  try_except
    (status ← get_manager_status;
     let etcd_info := status_nodes_info env in
     with_transaction (
       let active_sessions_num := JNum (Z.of_nat (count_active_sessions env)) in
       let _id := manager_id etcd_info in
       let nodes :=
         [JObj [("id", _id);
                ("num_proc", num_proc env);
                ("service_addr", JStr (service_addr env));
                ("heartbeat_timeout", heartbeat_timeout env);
                ("ssl_enabled", ssl_enabled env);
                ("active_sessions", active_sessions_num);
                ("status", JStr (ManagerStatus_value env status))]] in
       mret (json_response
               (JObj [("nodes", JList nodes);
                      ("status", JStr (ManagerStatus_value env status));
                      ("active_sessions", active_sessions_num)]))))
    (λ e, raise e).

(** ** Vocabulary of the specification *)

(** The status the gate sees, and the world once it has looked. *)
Definition observed_status (w : World) : ManagerStatus :=
  default (manager_status w) (status_cache w).

Definition warmed (w : World) : World :=
  set_status_cache (Some (observed_status w)) w.

(** The gate admits: whatever the handler, the wrapped handler is the handler
    itself, run after the status read. *)
Definition gate_admits (Req : Type) (allowed : gset ManagerStatus) (w : World) : Prop :=
  ∀ (handler : Handler Req) (request : Req),
    server_status_required allowed handler request w = handler request (warmed w).

(** The gate rejects with [e]: whatever the handler, it is not run and [e] is
    raised. *)
Definition gate_rejects_with (Req : Type) (allowed : gset ManagerStatus)
    (w : World) (e : Exn) : Prop :=
  ∀ (handler : Handler Req) (request : Req),
    server_status_required allowed handler request w = (Raise e, warmed w).

(** The memo after a put event, and after a run of events. *)
Definition refresh_status_cache (w : World) : World :=
  set_status_cache (Some (manager_status w)) w.

Definition after_event (ev : WatchEvent) (w : World) : World :=
  if String.eqb (event ev) "put" then refresh_status_cache w else w.

Definition after_events (evs : list WatchEvent) (w : World) : World :=
  foldl (λ w ev, after_event ev w) w evs.

(** The flag a scheduler operation writes. *)
Definition op_flag (op : SchedulerOps) : bool := bool_decide (op = INCLUDE_AGENTS).

(** What the claim on partial updates says of one request: the call fails
    with [InstanceNotFound], and every supplied id that has a row finds its
    flag written in the table the call leaves behind. *)
Definition partial_update_committed (op : SchedulerOps) (args : list string)
    (w : World) : Prop :=
  let r := perform_scheduler_ops op (JList (JStr <$> args)) w in
  r.1 = Raise InstanceNotFound
  ∧ ∀ id row, id ∈ args → agents w !! id = Some row →
      agents r.2 !! id = Some (set_schedulable (op_flag op) row).

(** No row of the table is ALIVE. *)
Definition no_alive_agents (w : World) : Prop :=
  ∀ id row, agents w !! id = Some row → agent_status row ≠ ALIVE.

(** The [managers] entry of every health-check response. *)
Definition managers_entry (env : Env) : json :=
  JList [JObj (dict_update
    [("id", manager_id (manager_nodes_info env)); ("type", JStr "manager");
     ("version", JStr (manager_version env));
     ("api_version", JStr (LATEST_API_VERSION env))]
    (host_health env))].

(** What the claim on zero alive agents says of one call: it succeeds with a
    JSON object holding the managers entry and an empty [agents] list. *)
Definition returns_empty_agents_list (env : Env) (r : Result Response) : Prop :=
  ∃ resp o, r = Ok resp ∧ body resp = Some (JObj o)
    ∧ dict_get "managers" o = Some (managers_entry env)
    ∧ dict_get "agents" o = Some (JList []).

(** The record of an agent that gave no payload: [{agent_id: {}}]. *)
Definition empty_record (agent_id : string) : json := JObj [(agent_id, JObj [])].

(** The world after further effects. *)
Definition log_effects (es : list Effect) (w : World) : World :=
  mkWorld (manager_status w) (status_cache w) (etcd w) (agents w) (sessions w)
          (trace w ++ es).

(** The outcome of the fan-out as a result of the handler monad. *)
Definition lift_result {A} (r : Result A) : M A :=
  match r with
  | Ok a => mret a
  | Raise e => raise e
  end.

(** Example data: two agents, neither schedulable, one stale session. *)
Definition example_world : World :=
  mkWorld RUNNING None ∅
    (<["a1" := mkAgentRow ALIVE false]>
       (<["a2" := mkAgentRow (OtherAgentStatus "LOST") false]> ∅))
    ["s1"] [].

(** Example data: no agent at all. *)
Definition empty_world : World := mkWorld RUNNING None ∅ ∅ [] [].

(** Example data: three watchers; [a2] answers 503, [a3] answers after 12
    time units. *)
Definition example_env : Env :=
  mkEnv [("m1", JNull)] [("uptime", JNum 5)] "20.03" "v5"
    (list_to_map [("a1", mkWatcherInfo "h1" "t1"); ("a2", mkWatcherInfo "h2" "t2");
                  ("a3", mkWatcherInfo "h3" "t3")])
    (list_to_map [("h1", Reply 1 200 (JObj [("load", JNum 1)]));
                  ("h2", Reply 1 503 JNull);
                  ("h3", Reply 12 200 (JObj [("load", JNum 3)]))]).

(** The ids of the ALIVE rows, in the order the query returns them. *)
Definition alive_ids (w : World) : list string :=
  (map_to_list (filter (λ kv : string * AgentRow, agent_status kv.2 = ALIVE)
                       (agents w))).*1.

(** Everything of a world but its memo and its log. *)
Definition same_data (w w' : World) : Prop :=
  manager_status w' = manager_status w
  ∧ etcd w' = etcd w
  ∧ agents w' = agents w
  ∧ sessions w' = sessions w.

(** A run of events holds a put. *)
Definition has_put (evs : list WatchEvent) : Prop :=
  ∃ ev, ev ∈ evs ∧ event ev = "put".

(** Example data: a store with one node, three kernels of which one holds
    resources under the default role. *)
Definition example_status_env : StatusEnv :=
  mkStatusEnv [("m1", JStr "up")] (JNum 4) "0.0.0.0:8080" (JNum 5) (JBool false)
    [mkKernelRow "main" "RUNNING"; mkKernelRow "sub" "RUNNING";
     mkKernelRow "main" "TERMINATED"]
    "main" ["PREPARING"; "RUNNING"]
    (λ s, match s with
          | RUNNING => "running"
          | FROZEN => "frozen"
          | OtherStatus name => name
          end).

(** * Properties *)

(** ** Running the monad *)

Lemma bind_ok {A B} (m : M A) (f : A → M B) w a w' :
  m w = (Ok a, w') → (m ≫= f) w = f a w'.
Proof. intros H. unfold mbind, M_bind. by rewrite H. Qed.

Lemma bind_raise {A B} (m : M A) (f : A → M B) w e w' :
  m w = (Raise e, w') → (m ≫= f) w = (Raise e, w').
Proof. intros H. unfold mbind, M_bind. by rewrite H. Qed.

Ltac run_monad :=
  cbv [mbind M_bind mret M_ret emit modify raise]; cbn.

(** ** StatusGate *)

Lemma get_manager_status_eq w :
  get_manager_status w = (Ok (observed_status w), warmed w).
Proof.
  unfold get_manager_status, observed_status, warmed.
  destruct w as [ms [c|] e a s t]; reflexivity.
Qed.

Lemma gate_in Req allowed w :
  observed_status w ∈ allowed → gate_admits Req allowed w.
Proof.
  intros Hin handler request. unfold server_status_required.
  rewrite (bind_ok _ _ _ _ _ (get_manager_status_eq w)).
  rewrite bool_decide_eq_false_2; [done|]. by intros Hn.
Qed.

Lemma gate_out Req allowed w :
  observed_status w ∉ allowed →
  gate_rejects_with Req allowed w
    (if bool_decide (observed_status w = FROZEN) then ServerFrozen
     else ServiceUnavailable allowed).
Proof.
  intros Hout handler request. unfold server_status_required.
  rewrite (bind_ok _ _ _ _ _ (get_manager_status_eq w)).
  rewrite bool_decide_eq_true_2; [|done].
  by case_bool_decide.
Qed.

Lemma gate_rejects_inv Req `{Inhabited Req} allowed w e :
  gate_rejects_with Req allowed w e →
  (observed_status w ∉ allowed)
  ∧ e = (if bool_decide (observed_status w = FROZEN) then ServerFrozen
         else ServiceUnavailable allowed).
Proof.
  intros He. pose proof (He (λ _, mret no_content) inhabitant) as Hrun.
  destruct (decide (observed_status w ∈ allowed)) as [Hin|Hout].
  - rewrite (gate_in Req allowed w Hin) in Hrun. discriminate.
  - split; [done|].
    rewrite (gate_out Req allowed w Hout) in Hrun. congruence.
Qed.

(** C3: for every status S read by the gate and every allowed set A, the gate
    admits the wrapped operation iff S is in A; it rejects iff S is not in A,
    and then the error is ServerFrozen iff S = FROZEN and ServiceUnavailable
    iff S is any other status. *)
Theorem status_gate_correct (Req : Type) `{Inhabited Req}
    (allowed : gset ManagerStatus) (w : World) :
  (gate_admits Req allowed w ↔ observed_status w ∈ allowed)
  ∧ ((∃ e, gate_rejects_with Req allowed w e) ↔ observed_status w ∉ allowed)
  ∧ (∀ e, gate_rejects_with Req allowed w e →
       (e = ServerFrozen ↔ observed_status w = FROZEN)
       ∧ (e = ServiceUnavailable allowed ↔ observed_status w ≠ FROZEN)).
Proof.
  split; [|split].
  - split; [|apply gate_in].
    intros Ha. destruct (decide (observed_status w ∈ allowed)) as [|Hout]; [done|].
    pose proof (gate_out Req allowed w Hout (λ _, mret no_content) inhabitant) as Hr.
    rewrite (Ha (λ _, mret no_content) inhabitant) in Hr. discriminate.
  - split.
    + intros [e He]. by destruct (gate_rejects_inv Req allowed w e He).
    + intros Hout. eexists. by apply gate_out.
  - intros e He. destruct (gate_rejects_inv Req allowed w e He) as [_ ->].
    case_bool_decide; split; split; intros; try done; congruence.
Qed.

(** A frozen manager still serves the read operations and refuses the others
    with [ServerFrozen]. *)
Lemma frozen_gate Req w :
  observed_status w = FROZEN →
  gate_admits Req READ_ALLOWED w ∧ gate_rejects_with Req ALL_ALLOWED w ServerFrozen.
Proof.
  intros Hf. split.
  - apply gate_in. rewrite Hf. unfold READ_ALLOWED. set_solver.
  - pose proof (gate_out Req ALL_ALLOWED w) as Hout.
    rewrite Hf in Hout. apply Hout. unfold ALL_ALLOWED. set_solver.
Qed.

(** The second gate: a GraphQL mutation is refused with [ServerFrozen] exactly
    when the status is FROZEN; everything else goes on to the next resolver. *)
Theorem gql_mutation_gate {A} (operation : string) (s : ManagerStatus) (next : M A) :
  (operation = "mutation" ∧ s = FROZEN →
     gql_mutation_unfrozen_resolve operation s next = raise ServerFrozen)
  ∧ (¬ (operation = "mutation" ∧ s = FROZEN) →
     gql_mutation_unfrozen_resolve operation s next = next).
Proof.
  unfold gql_mutation_unfrozen_resolve. split.
  - intros [-> ->]. reflexivity.
  - intros Hnot. destruct (String.eqb operation "mutation") eqn:Hop; [|done].
    apply String.eqb_eq in Hop. cbn.
    rewrite bool_decide_eq_false_2; [done|]. intros ->. by apply Hnot.
Qed.

(** ** StatusWatchLoop *)

Lemma on_watch_event_eq ev w : on_watch_event ev w = (Ok (), after_event ev w).
Proof.
  unfold on_watch_event, after_event.
  destruct (String.eqb (event ev) "put"); [|done].
  destruct w; reflexivity.
Qed.

Lemma watch_loop_eq evs fin w :
  watch_loop evs fin w =
    (match fin with Exhausted => Ok () | Raises e => Raise e end, after_events evs w).
Proof.
  revert w. induction evs as [|ev rest IH]; intros w; simpl.
  - by destruct fin.
  - rewrite (bind_ok _ _ _ _ _ (on_watch_event_eq ev w)). apply IH.
Qed.


(** A stream that just ends raises nothing: the loop returns. *)
Lemma watch_loop_exhausted evs w :
  detect_status_update evs Exhausted w = (Ok (), after_events evs w).
Proof. unfold detect_status_update, try_except. by rewrite watch_loop_eq. Qed.

(** After a put event the memo holds the value of the store. *)
Lemma put_event_refreshes_cache evs w :
  status_cache (after_events (evs ++ [mkWatchEvent "put"]) w)
  = Some (manager_status (after_events evs w)).
Proof. unfold after_events. by rewrite foldl_snoc. Qed.

(** ** Manager status update *)

(** C5: a status update with force_kill set kills all sessions and then
    writes the status: the call adds exactly these two effects, in this
    order, so the kill comes before the write and the write happens once. *)
Theorem force_kill_precedes_status_write (s : ManagerStatus) (v : json) (w : World) :
  truthy v = true →
  let r := update_manager_status (mkStatusUpdateBody s (Some v)) w in
  r.1 = Ok no_content
  ∧ trace r.2 = trace w ++ [EKillAllSessions; EStatusWrite s]
  ∧ sessions r.2 = []
  ∧ manager_status r.2 = s.
Proof.
  intros Hv. unfold update_manager_status. simpl. rewrite Hv.
  cbv [kill_all_sessions config_update_manager_status]. run_monad.
  by rewrite <- app_assoc.
Qed.

Lemma force_kill_precedes_status_write_witness :
  truthy (JBool true) = true
  ∧ trace (update_manager_status
             (mkStatusUpdateBody FROZEN (Some (JBool true))) example_world).2
    = [EKillAllSessions; EStatusWrite FROZEN].
Proof.
  split; [reflexivity|].
  apply (force_kill_precedes_status_write FROZEN (JBool true) example_world).
  reflexivity.
Defined.

(** Without force_kill the status is written and nothing is killed. *)
Lemma status_write_without_kill s v w :
  truthy v = false →
  let r := update_manager_status (mkStatusUpdateBody s (Some v)) w in
  r.1 = Ok no_content ∧ trace r.2 = trace w ++ [EStatusWrite s]
  ∧ sessions r.2 = sessions w.
Proof.
  intros Hv. unfold update_manager_status. simpl. rewrite Hv.
  cbv [config_update_manager_status]. run_monad. done.
Qed.

(** The handler reads the raw body again: without a ['force_kill'] key the
    lookup raises [KeyError] and nothing is killed or written. *)
Theorem missing_force_kill_key_error (s : ManagerStatus) (w : World) :
  update_manager_status (mkStatusUpdateBody s None) w
  = (Raise (KeyError "force_kill"), w).
Proof. reflexivity. Qed.

(** ** Announcements *)

Lemma get_announcement_eq w :
  get_announcement w =
    (Ok (json_response
           match etcd w !! announcement_key with
           | None => JObj [("enabled", JBool false); ("message", JStr "")]
           | Some data => JObj [("enabled", JBool true); ("message", JStr data)]
           end), w).
Proof. reflexivity. Qed.

(** C10: updating the announcement with enabled = false deletes the stored
    value whatever message came with it, and get_announcement on the
    resulting store answers enabled = false with an empty message. *)
Theorem disable_announcement (msg : option string) (w : World) :
  let r := update_announcement (mkAnnouncementParams false msg) w in
  r.1 = Ok no_content
  ∧ etcd r.2 = delete announcement_key (etcd w)
  ∧ etcd r.2 !! announcement_key = None
  ∧ get_announcement r.2 =
      (Ok (json_response (JObj [("enabled", JBool false); ("message", JStr "")])),
       r.2).
Proof.
  intros r.
  assert (Hr : r = (Ok no_content, set_etcd (delete announcement_key (etcd w)) w))
    by reflexivity.
  rewrite Hr. cbn.
  assert (H : delete announcement_key (etcd w) !! announcement_key = None)
    by apply lookup_delete_eq.
  repeat split; [done|].
  rewrite get_announcement_eq. cbn. by rewrite H.
Qed.

(** Enabling needs a message, and stores it. *)
Lemma enable_announcement msg w :
  msg ≠ "" →
  let r := update_announcement (mkAnnouncementParams true (Some msg)) w in
  r.1 = Ok no_content ∧ etcd r.2 !! announcement_key = Some msg.
Proof.
  intros Hne. destruct msg as [|c msg]; [done|].
  cbn. split; [done|]. apply lookup_insert_eq.
Qed.

Lemma enable_announcement_empty w :
  (update_announcement (mkAnnouncementParams true None) w).1
    = Raise (InvalidAPIParameters "Empty message not allowed to enable announcement")
  ∧ (update_announcement (mkAnnouncementParams true (Some "")) w).1
    = Raise (InvalidAPIParameters "Empty message not allowed to enable announcement").
Proof. done. Qed.

(** ** SchedulabilityController *)

(** *** Row counts *)

Lemma size_list_to_set_le (l : list string) :
  size (list_to_set l : gset string) ≤ length l.
Proof.
  induction l as [|x l IH].
  - by rewrite list_to_set_nil, size_empty.
  - rewrite list_to_set_cons, size_union_alt, size_singleton. simpl.
    assert (Hsub : size (list_to_set l ∖ {[x]} : gset string)
                   ≤ size (list_to_set l : gset string)).
    { apply subseteq_size. apply subseteq_difference_l. reflexivity. }
    lia.
Qed.

Lemma size_list_to_set_NoDup (l : list string) :
  size (list_to_set l : gset string) = length l → NoDup l.
Proof.
  induction l as [|x l IH]; [constructor|].
  rewrite list_to_set_cons, size_union_alt, size_singleton. simpl. intros Hsz.
  pose proof (size_list_to_set_le l) as Hle.
  assert (Hsub : (list_to_set l ∖ {[x]} : gset string) ⊆ list_to_set l).
  { apply subseteq_difference_l. reflexivity. }
  pose proof (subseteq_size _ _ Hsub) as Hsz'.
  constructor; [|apply IH; lia].
  intros Hin.
  assert (Hlt : size (list_to_set l ∖ {[x]} : gset string)
                < size (list_to_set l : gset string)); [|lia].
  apply subset_size. split; [done|].
  intros Hs. apply (elem_of_list_to_set (C := gset string)) in Hin.
  apply Hs in Hin. apply elem_of_difference in Hin as [_ Hx].
  apply Hx. by apply elem_of_singleton.
Qed.

Lemma matched_ids_subseteq args tbl :
  matched_ids args tbl ⊆ list_to_set args.
Proof.
  intros id. unfold matched_ids. rewrite elem_of_filter, elem_of_list_to_set. tauto.
Qed.

Lemma rowcount_le args tbl : size (matched_ids args tbl) ≤ length args.
Proof.
  etrans; [apply subseteq_size, matched_ids_subseteq|apply size_list_to_set_le].
Qed.

(** An id without a row leaves the row count below the number of ids. *)
Lemma rowcount_missing args tbl id :
  id ∈ args → tbl !! id = None → size (matched_ids args tbl) < length args.
Proof.
  intros Hin Hnone.
  eapply Nat.lt_le_trans; [|apply size_list_to_set_le].
  apply subset_size. split; [apply matched_ids_subseteq|].
  intros Hsub.
  assert (Hid : id ∈ matched_ids args tbl) by (apply Hsub; by apply elem_of_list_to_set).
  unfold matched_ids in Hid. apply elem_of_filter in Hid as [_ Hdom].
  apply elem_of_dom in Hdom as [row Hrow]. congruence.
Qed.

(** So does an id given twice. *)
Lemma rowcount_duplicate args tbl :
  ¬ NoDup args → size (matched_ids args tbl) < length args.
Proof.
  intros Hdup.
  pose proof (subseteq_size _ _ (matched_ids_subseteq args tbl)) as H1.
  pose proof (size_list_to_set_le args) as H2.
  destruct (decide (size (list_to_set args : gset string) = length args)) as [Heq|Hne].
  - destruct Hdup. by apply size_list_to_set_NoDup.
  - lia.
Qed.

(** Distinct ids that all have a row are all counted. *)
Lemma rowcount_all args tbl :
  NoDup args → (∀ id, id ∈ args → is_Some (tbl !! id)) →
  size (matched_ids args tbl) = length args.
Proof.
  intros Hnd Hall.
  rewrite <- (size_list_to_set (C := gset string) args Hnd).
  f_equal. apply set_eq. intros id. unfold matched_ids.
  rewrite elem_of_filter, elem_of_list_to_set, elem_of_dom. split.
  - tauto.
  - intros Hin. split; [done|]. by apply Hall.
Qed.

Lemma update_schedulable_lookup flag args tbl id :
  update_schedulable flag args tbl !! id =
    (λ row, if bool_decide (id ∈ args) then set_schedulable flag row else row)
      <$> tbl !! id.
Proof.
  unfold update_schedulable. rewrite map_lookup_imap.
  by destruct (tbl !! id).
Qed.

(** *** Validation *)

Lemma mapM_check_string (l : list string) :
  "" ∉ l → mapM check_string (JStr <$> l) = Some l.
Proof.
  induction l as [|x l IH]; intros Hne; [done|].
  rewrite fmap_cons. cbn.
  assert (Hx : String.eqb x "" = false).
  { apply String.eqb_neq. intros ->. apply Hne. left. }
  rewrite Hx. cbn. rewrite IH; [done|].
  intros Hin. apply Hne. by right.
Qed.

(** A request listing non-blank ids passes the check of its ['args']. *)
Lemma iv_scheduler_ops_args_ids op (ids : list string) :
  "" ∉ ids → iv_scheduler_ops_args op (JList (JStr <$> ids)) = Some ids.
Proof. intros Hne. destruct op; cbn; by apply mapM_check_string. Qed.

(** *** The two ways out of the handler *)

Lemma perform_scheduler_ops_eq op raw_args args w :
  iv_scheduler_ops_args op raw_args = Some args →
  perform_scheduler_ops op raw_args w =
    let rowcount := size (matched_ids args (agents w)) in
    let executed := EDbUpdateSchedulable (op_flag op) args rowcount in
    if bool_decide (rowcount < length args) then
      (Raise InstanceNotFound,
       mkWorld (manager_status w) (status_cache w) (etcd w) (agents w) (sessions w)
         (trace w ++ [EDbBegin; executed; EDbRollback]))
    else
      (Ok no_content,
       mkWorld (manager_status w) (status_cache w) (etcd w)
         (update_schedulable (op_flag op) args (agents w)) (sessions w)
         (trace w ++ [EDbBegin; executed; EDbCommit]
            ++ (if op_flag op then [EProduceEvent "do_schedule"] else []))).
Proof.
  intros Hargs. unfold perform_scheduler_ops. rewrite Hargs.
  rewrite bool_decide_eq_true_2 by (destruct op; set_solver).
  cbv [with_transaction execute_update_schedulable produce_event]. run_monad.
  fold (op_flag op).
  case_bool_decide; [|destruct (op_flag op)];
    cbv [log_effect set_agents]; cbn; by rewrite <- !app_assoc.
Qed.

(** *** An id without a row *)

(** C1 (amended): when a validated id list holds an id without a row, the
    UPDATE runs inside the transaction and counts fewer rows than ids,
    InstanceNotFound is raised inside the transaction block, the transaction
    is rolled back, so the table is left as it was, and the call fails with
    InstanceNotFound. *)
Theorem missing_id_rolls_back (op : SchedulerOps) (raw_args : json)
    (args : list string) (w : World) :
  iv_scheduler_ops_args op raw_args = Some args →
  (∃ id, id ∈ args ∧ agents w !! id = None) →
  let r := perform_scheduler_ops op raw_args w in
  let rowcount := size (matched_ids args (agents w)) in
  r.1 = Raise InstanceNotFound
  ∧ rowcount < length args
  ∧ agents r.2 = agents w
  ∧ trace r.2 =
      trace w ++ [EDbBegin; EDbUpdateSchedulable (op_flag op) args rowcount;
                  EDbRollback].
Proof.
  intros Hargs (id & Hin & Hnone) r rowcount.
  pose proof (rowcount_missing args (agents w) id Hin Hnone) as Hlt.
  subst r. rewrite (perform_scheduler_ops_eq op raw_args args w Hargs). cbn.
  fold rowcount. rewrite bool_decide_eq_true_2 by done. done.
Qed.

Lemma missing_id_rolls_back_witness :
  let r := perform_scheduler_ops INCLUDE_AGENTS
             (JList [JStr "a1"; JStr "a2"; JStr "a3"]) example_world in
  r.1 = Raise InstanceNotFound
  ∧ size (matched_ids ["a1"; "a2"; "a3"] (agents example_world)) < 3
  ∧ agents r.2 = agents example_world
  ∧ trace r.2 =
      [EDbBegin;
       EDbUpdateSchedulable true ["a1"; "a2"; "a3"]
         (size (matched_ids ["a1"; "a2"; "a3"] (agents example_world)));
       EDbRollback].
Proof.
  apply (missing_id_rolls_back INCLUDE_AGENTS
           (JList [JStr "a1"; JStr "a2"; JStr "a3"]) ["a1"; "a2"; "a3"]
           example_world).
  - reflexivity.
  - exists "a3". split; [|reflexivity].
    apply list_elem_of_In. simpl. tauto.
Defined.

(** C1 (as stated) fails: [a3] has no row, the call fails, and the row of
    [a1] is not left with its flag written. *)
Lemma missing_id_update_not_committed :
  (∃ id, id ∈ ["a1"; "a2"; "a3"] ∧ agents example_world !! id = None)
  ∧ ¬ partial_update_committed INCLUDE_AGENTS ["a1"; "a2"; "a3"] example_world.
Proof.
  split.
  - exists "a3". split; [|reflexivity]. apply list_elem_of_In. simpl. tauto.
  - intros [_ Hrows].
    specialize (Hrows "a1" (mkAgentRow ALIVE false)).
    assert (Hsame : agents (perform_scheduler_ops INCLUDE_AGENTS
                              (JList (JStr <$> ["a1"; "a2"; "a3"])) example_world).2
                    !! "a1" = Some (mkAgentRow ALIVE false)) by (vm_compute; reflexivity).
    rewrite Hsame in Hrows.
    assert (Hflag : Some (mkAgentRow ALIVE false)
                    = Some (set_schedulable (op_flag INCLUDE_AGENTS)
                              (mkAgentRow ALIVE false))).
    { apply Hrows; [|reflexivity]. apply list_elem_of_In. simpl. tauto. }
    discriminate Hflag.
Qed.

(** Inside the transaction the statement did write the flag of the rows it
    selected. *)
Lemma update_schedulable_selected flag args tbl id row :
  id ∈ args → tbl !! id = Some row →
  update_schedulable flag args tbl !! id = Some (set_schedulable flag row).
Proof.
  intros Hin Hrow. rewrite update_schedulable_lookup, Hrow. cbn.
  by rewrite bool_decide_eq_true_2.
Qed.

Lemma update_schedulable_others flag args tbl id :
  id ∉ args → update_schedulable flag args tbl !! id = tbl !! id.
Proof.
  intros Hout. rewrite update_schedulable_lookup.
  destruct (tbl !! id); [|done]. cbn. by rewrite bool_decide_eq_false_2.
Qed.

(** *** Ids that all have a row *)

(** Distinct ids that all have a row: the flags are written, the transaction
    commits, and an include operation then produces exactly one
    ['do_schedule'] event, an exclude operation none. *)
Theorem distinct_ids_commit (op : SchedulerOps) (raw_args : json)
    (args : list string) (w : World) :
  iv_scheduler_ops_args op raw_args = Some args →
  NoDup args →
  (∀ id, id ∈ args → is_Some (agents w !! id)) →
  let r := perform_scheduler_ops op raw_args w in
  r.1 = Ok no_content
  ∧ agents r.2 = update_schedulable (op_flag op) args (agents w)
  ∧ trace r.2 =
      trace w ++ [EDbBegin; EDbUpdateSchedulable (op_flag op) args (length args);
                  EDbCommit]
        ++ match op with
           | INCLUDE_AGENTS => [EProduceEvent "do_schedule"]
           | EXCLUDE_AGENTS => []
           end.
Proof.
  intros Hargs Hnd Hall r.
  pose proof (rowcount_all args (agents w) Hnd Hall) as Hcount.
  subst r. rewrite (perform_scheduler_ops_eq op raw_args args w Hargs). cbn.
  rewrite Hcount. rewrite bool_decide_eq_false_2 by lia. cbn.
  by destruct op.
Qed.

Lemma distinct_ids_commit_witness :
  let r := perform_scheduler_ops INCLUDE_AGENTS
             (JList [JStr "a1"; JStr "a2"]) example_world in
  r.1 = Ok no_content
  ∧ agents r.2 = update_schedulable true ["a1"; "a2"] (agents example_world)
  ∧ trace r.2 =
      [EDbBegin; EDbUpdateSchedulable true ["a1"; "a2"] 2; EDbCommit;
       EProduceEvent "do_schedule"].
Proof.
  apply (distinct_ids_commit INCLUDE_AGENTS (JList [JStr "a1"; JStr "a2"])
           ["a1"; "a2"] example_world).
  - reflexivity.
  - apply (bool_decide_unpack _). vm_compute. exact I.
  - intros id Hin. apply list_elem_of_In in Hin. simpl in Hin.
    destruct Hin as [<-|[<-|[]]]; eexists; reflexivity.
Defined.

(** An id given twice: the row count is below the number of ids even when
    every id has a row, so the call fails as if a row were missing, the
    transaction is rolled back and no event is produced. *)
Theorem duplicate_ids_rejected (op : SchedulerOps) (raw_args : json)
    (args : list string) (w : World) :
  iv_scheduler_ops_args op raw_args = Some args →
  ¬ NoDup args →
  let r := perform_scheduler_ops op raw_args w in
  r.1 = Raise InstanceNotFound
  ∧ agents r.2 = agents w
  ∧ EProduceEvent "do_schedule" ∉ drop (length (trace w)) (trace r.2).
Proof.
  intros Hargs Hdup r.
  pose proof (rowcount_duplicate args (agents w) Hdup) as Hlt.
  subst r. rewrite (perform_scheduler_ops_eq op raw_args args w Hargs). cbn.
  rewrite bool_decide_eq_true_2 by done. cbn.
  split; [done|]. split; [done|].
  rewrite drop_app_length. intros Hin.
  apply list_elem_of_In in Hin. simpl in Hin.
  repeat destruct Hin as [Hin|Hin]; try discriminate Hin. done.
Qed.

Lemma duplicate_ids_rejected_witness :
  let r := perform_scheduler_ops EXCLUDE_AGENTS
             (JList [JStr "a1"; JStr "a1"]) example_world in
  r.1 = Raise InstanceNotFound
  ∧ agents r.2 = agents example_world
  ∧ EProduceEvent "do_schedule" ∉ drop (length (trace example_world)) (trace r.2).
Proof.
  apply (duplicate_ids_rejected EXCLUDE_AGENTS (JList [JStr "a1"; JStr "a1"])
           ["a1"; "a1"] example_world).
  - reflexivity.
  - intros Hnd. apply NoDup_cons in Hnd as [Hnotin _].
    apply Hnotin. apply list_elem_of_In. simpl. tauto.
Defined.

(** C6 at an input the code mishandles: [a1] has a row and is listed twice
    in an include request; the call fails with InstanceNotFound, rolls back
    and produces no event. *)
Lemma include_same_id_twice :
  let r := perform_scheduler_ops INCLUDE_AGENTS
             (JList [JStr "a1"; JStr "a1"]) example_world in
  agents example_world !! "a1" = Some (mkAgentRow ALIVE false)
  ∧ r.1 = Raise InstanceNotFound
  ∧ agents r.2 !! "a1" = Some (mkAgentRow ALIVE false)
  ∧ trace r.2 =
      [EDbBegin; EDbUpdateSchedulable true ["a1"; "a1"] 1; EDbRollback].
Proof. vm_compute. done. Qed.

(** ** The scheduler *)

Section SchedulerFacts.
Context {J : Type}.
Implicit Types s : Scheduler.t J.

Lemma length_delete_le (l : list J) i : length (delete i l) ≤ length l.
Proof.
  revert i. induction l as [|x l IH]; intros [|i]; simpl; try lia.
  specialize (IH i). lia.
Qed.

Lemma create_scheduler_wf n : Scheduler.wf (Scheduler.create_scheduler (J := J) n).
Proof. split; [cbn; lia|by left]. Qed.

Lemma spawn_limit s job : Scheduler.limit (Scheduler.spawn s job) = Scheduler.limit s.
Proof. unfold Scheduler.spawn. by case_bool_decide. Qed.

Lemma spawn_wf s job : Scheduler.wf s → Scheduler.wf (Scheduler.spawn s job).
Proof.
  intros [Hle Hq]. unfold Scheduler.wf, Scheduler.spawn, Scheduler.active_count in *.
  case_bool_decide as Hlt; cbn.
  - rewrite length_app. cbn. split; [lia|].
    destruct Hq as [Hq|Hq]; [by left|lia].
  - split; [done|]. right. lia.
Qed.

Lemma done_wf s i : Scheduler.wf s → Scheduler.wf (Scheduler.done s i).
Proof.
  intros [Hle _]. unfold Scheduler.wf, Scheduler.done, Scheduler.active_count in *. cbn.
  pose proof (length_delete_le (Scheduler.active s) i) as Hrem.
  rewrite length_app, length_take.
  split; [lia|].
  destruct (decide (length (Scheduler.pending s)
                    ≤ Scheduler.limit s - length (delete i (Scheduler.active s))))
    as [Hfew|Hmany].
  - left. by apply drop_ge.
  - right. lia.
Qed.

Lemma step_wf s s' : Scheduler.step s s' → Scheduler.wf s → Scheduler.wf s'.
Proof. destruct 1; [apply spawn_wf|apply done_wf]. Qed.

Lemma step_limit s s' : Scheduler.step s s' → Scheduler.limit s' = Scheduler.limit s.
Proof. destruct 1; [apply spawn_limit|done]. Qed.

Lemma reachable_wf n s :
  Scheduler.reachable n s → Scheduler.wf s ∧ Scheduler.limit s = n.
Proof.
  unfold Scheduler.reachable. intros Hr.
  apply (rtc_ind_r (R := Scheduler.step)
           (λ s, Scheduler.wf s ∧ Scheduler.limit s = n)
           (Scheduler.create_scheduler n)); [| |exact Hr].
  - split; [apply create_scheduler_wf|done].
  - intros s1 s2 _ Hstep [IHwf IHlim].
    split; [by eapply step_wf|]. by rewrite (step_limit _ _ Hstep).
Qed.

(** With every slot taken a spawned job is queued, behind the others. *)
Lemma spawn_full s job :
  Scheduler.active_count s = Scheduler.limit s →
  Scheduler.active (Scheduler.spawn s job) = Scheduler.active s
  ∧ Scheduler.pending (Scheduler.spawn s job) = Scheduler.pending s ++ [job].
Proof.
  intros Hfull. unfold Scheduler.spawn. rewrite bool_decide_eq_false_2 by lia. done.
Qed.

Lemma spawn_free s job :
  Scheduler.active_count s < Scheduler.limit s →
  Scheduler.active (Scheduler.spawn s job) = Scheduler.active s ++ [job]
  ∧ Scheduler.pending (Scheduler.spawn s job) = Scheduler.pending s.
Proof.
  intros Hfree. unfold Scheduler.spawn. by rewrite bool_decide_eq_true_2.
Qed.


Lemma reachable_spawn n s job :
  Scheduler.reachable n s → Scheduler.reachable n (Scheduler.spawn s job).
Proof. intros Hr. eapply rtc_r; [exact Hr|constructor]. Qed.

Lemma reachable_foldl_spawn n s jobs :
  Scheduler.reachable n s → Scheduler.reachable n (foldl Scheduler.spawn s jobs).
Proof.
  revert s. induction jobs as [|job jobs IH]; intros s Hr; [done|].
  cbn. apply IH. by apply reachable_spawn.
Qed.

(** Spawning keeps the jobs in spawn order: those in flight, then the queue. *)
Lemma foldl_spawn_jobs s jobs :
  Scheduler.wf s →
  Scheduler.wf (foldl Scheduler.spawn s jobs)
  ∧ Scheduler.limit (foldl Scheduler.spawn s jobs) = Scheduler.limit s
  ∧ Scheduler.active (foldl Scheduler.spawn s jobs)
      ++ Scheduler.pending (foldl Scheduler.spawn s jobs)
    = (Scheduler.active s ++ Scheduler.pending s) ++ jobs.
Proof.
  revert s. induction jobs as [|job jobs IH]; intros s Hwf; cbn.
  - by rewrite app_nil_r.
  - destruct (IH (Scheduler.spawn s job) (spawn_wf s job Hwf)) as (Hwf' & Hlim & Happ).
    split; [done|]. split; [by rewrite Hlim, spawn_limit|].
    rewrite Happ. destruct Hwf as [Hle Hq].
    destruct (decide (Scheduler.active_count s < Scheduler.limit s)) as [Hfree|Hfull].
    + destruct (spawn_free s job Hfree) as [-> ->].
      destruct Hq as [->|Hq]; [|lia]. by rewrite !app_nil_r, <- app_assoc.
    + destruct (spawn_full s job) as [-> ->]; [lia|].
      by rewrite <- !app_assoc.
Qed.

(** With room for at least one job and enough turns of the loop, every job
    spawned is run: none is left in flight or queued, and the outcomes come
    in spawn order. *)
Lemma run_until_idle_all {R} (run_job : J → R) fuel s finished :
  0 < Scheduler.limit s → Scheduler.wf s →
  length (Scheduler.active s ++ Scheduler.pending s) ≤ fuel →
  Scheduler.run_until_idle run_job fuel s finished
  = (Scheduler.mk (Scheduler.limit s) [] [],
     finished ++ ((λ job, (job, run_job job))
                    <$> (Scheduler.active s ++ Scheduler.pending s))).
Proof.
  revert s finished. induction fuel as [|fuel IH]; intros s finished Hpos Hwf Hfuel.
  - destruct s as [n [|] [|]]; cbn in *; try lia. by rewrite app_nil_r.
  - cbn. destruct (Scheduler.active s) as [|job rest] eqn:Hact.
    + destruct Hwf as [_ [Hq|Hq]].
      * destruct s; cbn in *. subst. by rewrite app_nil_r.
      * unfold Scheduler.active_count in Hq. rewrite Hact in Hq. cbn in Hq. lia.
    + pose proof (done_wf s 0 Hwf) as Hwf'.
      assert (Happ : Scheduler.active (Scheduler.done s 0)
                       ++ Scheduler.pending (Scheduler.done s 0)
                     = rest ++ Scheduler.pending s).
      { unfold Scheduler.done. cbn. rewrite Hact. cbn.
        by rewrite <- app_assoc, take_drop. }
      rewrite IH; [|done|done|].
      * rewrite Happ. cbn. by rewrite <- app_assoc.
      * rewrite Happ. cbn in Hfuel. rewrite length_app in *. lia.
Qed.
End SchedulerFacts.

(** *** The scheduler of the health check *)

Lemma health_check_scheduler_reachable ids :
  Scheduler.reachable health_check_limit (health_check_scheduler ids).
Proof. apply reachable_foldl_spawn. apply rtc_refl. Qed.



(** The bound holds from the state the spawns of a fan-out leave, whatever
    happens next. *)
Lemma fan_out_states_bounded ids s :
  rtc Scheduler.step (health_check_scheduler ids) s → Scheduler.in_flight s ≤ 4.
Proof.
  intros Hsteps.
  assert (Hr : Scheduler.reachable health_check_limit s).
  { unfold Scheduler.reachable. etrans; [|exact Hsteps].
    apply health_check_scheduler_reachable. }
  destruct (reachable_wf _ _ Hr) as [[Hle _] Hlim].
  unfold Scheduler.in_flight. rewrite Hlim in Hle. exact Hle.
Qed.

(** ** HealthAggregator *)

(** *** The fan-out *)

Lemma emit_spawns_eq ids w :
  foldr (λ aid rest, emit (EProbeSpawn aid);; rest) (mret ()) ids w
  = (Ok (), log_effects (EProbeSpawn <$> ids) w).
Proof.
  revert w. induction ids as [|aid ids IH]; intros w.
  - cbn. unfold log_effects. rewrite app_nil_r. by destruct w.
  - cbn [foldr]. run_monad. rewrite IH. unfold log_effects, log_effect. cbn.
    by rewrite <- app_assoc.
Qed.

Lemma job_wait_finished (f : Job → Result json) (jobs : list Job) (job : Job) :
  job ∈ jobs → job_wait ((λ j, (j, f j)) <$> jobs) job = f job.
Proof.
  unfold job_wait. induction jobs as [|j jobs IH]; intros Hin.
  - by apply elem_of_nil in Hin.
  - rewrite fmap_cons. cbn. case_decide as Hj.
    + cbn in Hj. by subst.
    + apply elem_of_cons in Hin as [->|Hin]; [done|].
      specialize (IH Hin).
      destruct (list_find _ _) as [[k [j' r]]|]; cbn in *; done.
Qed.

Lemma health_check_jobs_agents (f : string → Result json) ids :
  (λ job : Job, f job.2) <$> health_check_jobs ids = f <$> ids.
Proof.
  unfold health_check_jobs. rewrite fmap_imap.
  rewrite (imap_ext _ (λ _, f)) by done. apply imap_const.
Qed.

(** The fan-out spawns a job per id and returns what [gather] makes of the
    probes' outcomes, in the order of the ids. *)
Lemma fan_out_eq env ids w :
  fan_out env ids w
  = lift_result (gather (_agent_health_check env <$> ids))
      (log_effects (EProbeSpawn <$> ids) w).
Proof.
  unfold fan_out.
  rewrite (bind_ok _ _ _ _ _ (emit_spawns_eq ids w)).
  destruct (foldl_spawn_jobs (Scheduler.create_scheduler health_check_limit)
              (health_check_jobs ids) (create_scheduler_wf _)) as (Hwf & Hlim & Happ).
  fold (health_check_scheduler ids) in Hwf, Hlim, Happ.
  change (Scheduler.limit (health_check_scheduler ids) = 4) in Hlim.
  rewrite app_nil_l in Happ.
  rewrite (run_until_idle_all _ _ (health_check_scheduler ids) []);
    [|rewrite Hlim; lia|done|by rewrite Happ].
  rewrite Happ. cbn.
  rewrite (list_fmap_ext
             (job_wait ((λ job : Job, (job, _agent_health_check env job.2))
                        <$> health_check_jobs ids))
             (λ job : Job, _agent_health_check env job.2)).
  - rewrite health_check_jobs_agents. by destruct (gather _).
  - intros i job Hjob.
    apply (job_wait_finished (λ job : Job, _agent_health_check env job.2)).
    by eapply list_elem_of_lookup_2.
Qed.

(** *** One probe *)


(** A reply that takes the 10 units of the deadline or more: the job raises. *)
Lemma _agent_health_check_timeout env agent_id wi latency st payload :
  watchers env !! agent_id = Some wi →
  network env !! addr wi = Some (Reply latency st payload) →
  (probe_deadline ≤ latency)%Z →
  _agent_health_check env agent_id = Raise TimeoutError.
Proof.
  intros Hw Hn Hlate. unfold _agent_health_check. rewrite Hw, Hn.
  by rewrite bool_decide_eq_true_2.
Qed.

(** A reply in time with another status than 200: an empty record. *)
Lemma _agent_health_check_bad_status env agent_id wi latency st payload :
  watchers env !! agent_id = Some wi →
  network env !! addr wi = Some (Reply latency st payload) →
  (latency < probe_deadline)%Z → st ≠ 200%Z →
  _agent_health_check env agent_id = Ok (empty_record agent_id).
Proof.
  intros Hw Hn Hlate Hst. unfold _agent_health_check. rewrite Hw, Hn.
  rewrite bool_decide_eq_false_2 by lia. by rewrite bool_decide_eq_false_2.
Qed.

Lemma _agent_health_check_ok env agent_id wi latency payload :
  watchers env !! agent_id = Some wi →
  network env !! addr wi = Some (Reply latency 200 payload) →
  (latency < probe_deadline)%Z →
  _agent_health_check env agent_id = Ok payload.
Proof.
  intros Hw Hn Hlate. unfold _agent_health_check. rewrite Hw, Hn.
  rewrite bool_decide_eq_false_2 by lia. by rewrite bool_decide_eq_true_2.
Qed.

Lemma _agent_health_check_no_watcher env agent_id :
  watchers env !! agent_id = None →
  _agent_health_check env agent_id = Ok (empty_record agent_id).
Proof. intros Hw. unfold _agent_health_check. by rewrite Hw. Qed.

(** *** [gather] *)


Lemma gather_ok {A} (outcomes : list (Result A)) l :
  gather outcomes = Ok l ↔ outcomes = Ok <$> l.
Proof.
  revert l. induction outcomes as [|[a|e] rest IH]; intros l; cbn.
  - split; [intros [= <-]; done|]. by destruct l.
  - destruct (gather rest) as [l'|e] eqn:Hrest.
    + split.
      * intros [= <-]. rewrite fmap_cons. f_equal. by apply IH.
      * destruct l as [|b l]; [done|]. rewrite fmap_cons. intros [= -> Hl].
        f_equal. f_equal. apply IH in Hl. congruence.
    + split; [done|]. destruct l as [|b l]; [done|].
      rewrite fmap_cons. intros [= -> Hl]. apply IH in Hl. congruence.
  - split; [done|]. by destruct l.
Qed.


(** *** The handler *)


Lemma join_ids_null (before after : list (option string)) :
  join_ids (before ++ None :: after) = None.
Proof.
  unfold join_ids. induction before as [|[id|] before IH]; cbn; [done| |done].
  by rewrite IH.
Qed.

(** Explicit ids, all strings. *)
Lemma health_check_given env params ids w :
  join_ids (agent_ids params) = Some ids →
  with_all_agents params = false →
  health_check env params w =
    if bool_decide (ids = []) then
      (Ok (json_response (JObj [("managers", managers_entry env)])), w)
    else
      match gather (_agent_health_check env <$> ids) with
      | Ok agent_infos =>
          (Ok (json_response
                 (JObj [("managers", managers_entry env);
                        ("agents", JList agent_infos)])),
           log_effects (EProbeSpawn <$> ids) w)
      | Raise e => (Raise e, log_effects (EProbeSpawn <$> ids) w)
      end.
Proof.
  intros Hjoin Hall. unfold health_check. rewrite Hjoin, Hall. cbn.
  run_monad. case_bool_decide; [done|].
  rewrite fan_out_eq. by destruct (gather _).
Qed.

(** Both parameters given: nothing is done before the rejection. *)
Theorem both_given_rejected (env : Env) (params : HealthCheckParams)
    (ids : list string) (w : World) :
  join_ids (agent_ids params) = Some ids →
  ids ≠ [] →
  with_all_agents params = true →
  health_check env params w =
    (Raise (InvalidAPIParameters
              "either one of with_all_agents or agent_ids should be given"), w).
Proof.
  intros Hjoin Hne Hall. unfold health_check. rewrite Hjoin, Hall. cbn.
  by rewrite bool_decide_eq_false_2.
Qed.

Lemma both_given_rejected_witness :
  health_check example_env (mkHealthCheckParams [Some "a1"] true) example_world =
    (Raise (InvalidAPIParameters
              "either one of with_all_agents or agent_ids should be given"),
     example_world).
Proof.
  apply (both_given_rejected example_env (mkHealthCheckParams [Some "a1"] true)
           ["a1"] example_world).
  - reflexivity.
  - discriminate.
  - reflexivity.
Defined.

(** C7 at an input the code mishandles: an id list holding a null passes the
    parameter check, and the handler raises TypeError while formatting its
    log line, before it compares the two parameters; the world is untouched. *)
Theorem null_id_type_error (env : Env) (before after : list (option string))
    (all : bool) (w : World) :
  health_check env (mkHealthCheckParams (before ++ None :: after) all) w
  = (Raise TypeError, w).
Proof. unfold health_check. cbn. by rewrite join_ids_null. Qed.

(** *** All agents, none alive *)

Lemma select_alive_ids_none w :
  no_alive_agents w →
  select_alive_ids w = (Ok [], log_effect EDbSelectAlive w).
Proof.
  intros Hnone. unfold select_alive_ids.
  assert (Hempty : filter (λ kv : string * AgentRow, agent_status kv.2 = ALIVE)
                     (agents w) = ∅).
  { apply map_empty. intros id. apply map_lookup_filter_None. right.
    intros row Hrow. cbn. by apply (Hnone id). }
  by rewrite Hempty, map_to_list_empty.
Qed.

Lemma health_check_none_alive env w :
  no_alive_agents w →
  health_check env (mkHealthCheckParams [] true) w
  = (Ok (json_response (JObj [("managers", managers_entry env)])),
     log_effects [EDbBegin; EDbSelectAlive; EDbCommit] w).
Proof.
  intros Hnone. unfold health_check. cbn.
  unfold with_transaction.
  assert (Hnone' : no_alive_agents (log_effect EDbBegin w)) by done.
  rewrite (bind_ok _ _ w [] (log_effect EDbCommit
             (log_effect EDbSelectAlive (log_effect EDbBegin w)))).
  - cbn. unfold log_effects, log_effect. cbn. by rewrite <- !app_assoc.
  - by rewrite (select_alive_ids_none _ Hnone').
Qed.

(** C4 (amended): a health check with with_all_agents set and no explicit
    ids, when no agent is ALIVE, succeeds after its one query, and its
    response holds the managers entry alone: it has no [agents] key. *)
Theorem no_alive_agents_managers_only (env : Env) (w : World) :
  no_alive_agents w →
  let r := health_check env (mkHealthCheckParams [] true) w in
  r.1 = Ok (json_response (JObj [("managers", managers_entry env)]))
  ∧ dict_get "agents" [("managers", managers_entry env)] = None
  ∧ agents r.2 = agents w
  ∧ trace r.2 = trace w ++ [EDbBegin; EDbSelectAlive; EDbCommit].
Proof.
  intros Hnone r. subst r. by rewrite (health_check_none_alive env w Hnone).
Qed.

Lemma no_alive_agents_empty_world : no_alive_agents empty_world.
Proof. intros id row Hrow. vm_compute in Hrow. discriminate Hrow. Qed.

Lemma no_alive_agents_managers_only_witness :
  let r := health_check example_env (mkHealthCheckParams [] true) empty_world in
  r.1 = Ok (json_response (JObj [("managers", managers_entry example_env)]))
  ∧ dict_get "agents" [("managers", managers_entry example_env)] = None
  ∧ agents r.2 = agents empty_world
  ∧ trace r.2 = [EDbBegin; EDbSelectAlive; EDbCommit].
Proof.
  apply (no_alive_agents_managers_only example_env empty_world).
  intros id row Hrow. vm_compute in Hrow. discriminate Hrow.
Defined.

(** C4 (as stated) fails: no agent is ALIVE, and the response of the call
    has no empty [agents] list in it. *)
Lemma no_empty_agents_list :
  no_alive_agents empty_world
  ∧ ¬ returns_empty_agents_list example_env
        (health_check example_env (mkHealthCheckParams [] true) empty_world).1.
Proof.
  split; [apply no_alive_agents_empty_world|].
  intros (resp & o & Hr & Hbody & _ & Hagents).
  rewrite (health_check_none_alive example_env empty_world
             no_alive_agents_empty_world) in Hr.
  cbn in Hr. injection Hr as <-. cbn in Hbody.
  injection Hbody as <-. discriminate Hagents.
Qed.

(** With some agent ALIVE the response does list agents. *)
Lemma alive_agents_are_probed :
  (health_check example_env (mkHealthCheckParams [] true) example_world).1
  = Ok (json_response
          (JObj [("managers", managers_entry example_env);
                 ("agents", JList [JObj [("load", JNum 1)]])])).
Proof. vm_compute. reflexivity. Qed.

(** *** Probes that fail *)



(** C2 at an input the code mishandles: of three agents the watcher of [a3]
    answers after 12 time units, past the deadline of 10; the whole call
    raises TimeoutError and returns no record at all, although [a1] answers
    200 in time. *)
Lemma one_timeout_fails_the_call :
  _agent_health_check example_env "a1" = Ok (JObj [("load", JNum 1)])
  ∧ _agent_health_check example_env "a3" = Raise TimeoutError
  ∧ (health_check example_env
       (mkHealthCheckParams [Some "a1"; Some "a3"; Some "a2"] false)
       example_world).1 = Raise TimeoutError.
Proof. vm_compute. done. Qed.



(** * Further properties *)

(** ** Announcements: what is stored is what is read *)

(** Enabling with a message, then reading: the announcement is enabled and
    carries that message. *)
Theorem announcement_round_trip (msg : string) (w : World) :
  msg ≠ "" →
  let r := update_announcement (mkAnnouncementParams true (Some msg)) w in
  r.1 = Ok no_content
  ∧ get_announcement r.2 =
      (Ok (json_response (JObj [("enabled", JBool true); ("message", JStr msg)])),
       r.2).
Proof.
  intros Hne r.
  assert (Hr : r = (Ok no_content, set_etcd (<[announcement_key := msg]> (etcd w)) w)).
  { subst r. destruct msg as [|c msg]; [done|]. reflexivity. }
  rewrite Hr. split; [done|].
  rewrite get_announcement_eq. cbn. by rewrite lookup_insert_eq.
Qed.

Lemma announcement_round_trip_witness :
  let r := update_announcement (mkAnnouncementParams true (Some "maintenance"))
             example_world in
  r.1 = Ok no_content
  ∧ get_announcement r.2 =
      (Ok (json_response
             (JObj [("enabled", JBool true); ("message", JStr "maintenance")])),
       r.2).
Proof.
  apply (announcement_round_trip "maintenance" example_world). discriminate.
Defined.

(** Enabling is refused exactly when the message is missing or empty; a
    refused request changes nothing. *)
Theorem enable_refused_iff (msg : option string) (w : World) :
  let r := update_announcement (mkAnnouncementParams true msg) w in
  (r.1 ≠ Ok no_content ↔ msg = None ∨ msg = Some "")
  ∧ (r.1 ≠ Ok no_content →
     r = (Raise (InvalidAPIParameters
                   "Empty message not allowed to enable announcement"), w)).
Proof.
  destruct msg as [[|c msg]|]; cbn.
  - split; [|done]. split; [by right|discriminate].
  - split; [|done]. split; [done|]. intros [[=]|[=]].
  - split; [|done]. split; [by left|discriminate].
Qed.

Lemma update_announcement_etcd params w :
  (update_announcement params w).2 = w
  ∨ (∃ m, (update_announcement params w).2 = set_etcd m w
          ∧ ∀ k, k ≠ announcement_key → m !! k = etcd w !! k).
Proof.
  destruct params as [[|] [[|c msg]|]].
  - by left.
  - right. eexists. split; [reflexivity|]. intros k Hk. by apply lookup_insert_ne.
  - by left.
  - right. eexists. split; [reflexivity|]. intros k Hk. by apply lookup_delete_ne.
  - right. eexists. split; [reflexivity|]. intros k Hk. by apply lookup_delete_ne.
  - right. eexists. split; [reflexivity|]. intros k Hk. by apply lookup_delete_ne.
Qed.

(** Whatever the parameters, an announcement update touches the
    announcement key of the store and nothing else. *)
Theorem update_announcement_frame (params : AnnouncementParams) (w : World) :
  let w' := (update_announcement params w).2 in
  (∀ k, k ≠ announcement_key → etcd w' !! k = etcd w !! k)
  ∧ manager_status w' = manager_status w
  ∧ status_cache w' = status_cache w
  ∧ agents w' = agents w
  ∧ sessions w' = sessions w
  ∧ trace w' = trace w.
Proof.
  intros w'. subst w'.
  destruct (update_announcement_etcd params w) as [->|(m & -> & Hm)]; [done|].
  cbn. by repeat split.
Qed.

(** ** Manager status update without force_kill *)

(** With a false force_kill value no session is killed, and the status is
    written once. *)
Theorem no_force_kill_no_kill (s : ManagerStatus) (v : json) (w : World) :
  truthy v = false →
  let r := update_manager_status (mkStatusUpdateBody s (Some v)) w in
  r.1 = Ok no_content
  ∧ trace r.2 = trace w ++ [EStatusWrite s]
  ∧ sessions r.2 = sessions w
  ∧ manager_status r.2 = s.
Proof.
  intros Hv. unfold update_manager_status. simpl. rewrite Hv.
  cbv [config_update_manager_status]. run_monad. done.
Qed.

Lemma no_force_kill_no_kill_witness :
  let r := update_manager_status (mkStatusUpdateBody FROZEN (Some (JBool false)))
             example_world in
  r.1 = Ok no_content
  ∧ trace r.2 = [EStatusWrite FROZEN]
  ∧ sessions r.2 = ["s1"]
  ∧ manager_status r.2 = FROZEN.
Proof.
  apply (no_force_kill_no_kill FROZEN (JBool false) example_world). reflexivity.
Defined.

(** Whatever the body, a status update leaves the tables, the other keys of
    the store and the memo alone. *)
Lemma update_manager_status_frame params w :
  let w' := (update_manager_status params w).2 in
  status_cache w' = status_cache w ∧ etcd w' = etcd w ∧ agents w' = agents w.
Proof.
  destruct params as [s [v|]]; [|done].
  unfold update_manager_status. cbn. destruct (truthy v);
    cbv [kill_all_sessions config_update_manager_status]; run_monad; done.
Qed.

(** ** The watch loop and the memo *)

Lemma after_events_data evs w : same_data w (after_events evs w).
Proof.
  revert w. induction evs as [|ev evs IH]; intros w; [done|].
  change (after_events (ev :: evs) w) with (after_events evs (after_event ev w)).
  destruct (IH (after_event ev w)) as (H1 & H2 & H3 & H4).
  unfold same_data. rewrite H1, H2, H3, H4.
  unfold after_event. by destruct (String.eqb (event ev) "put").
Qed.

Lemma after_events_trace evs w : trace (after_events evs w) = trace w.
Proof.
  revert w. induction evs as [|ev evs IH]; intros w; [done|].
  change (after_events (ev :: evs) w) with (after_events evs (after_event ev w)).
  rewrite IH. unfold after_event. by destruct (String.eqb (event ev) "put").
Qed.

Lemma after_events_no_put evs w :
  (∀ ev, ev ∈ evs → event ev ≠ "put") → after_events evs w = w.
Proof.
  revert w. induction evs as [|ev evs IH]; intros w Hno; [done|].
  change (after_events (ev :: evs) w) with (after_events evs (after_event ev w)).
  assert (Hev : String.eqb (event ev) "put" = false).
  { apply String.eqb_neq. apply Hno. left. }
  unfold after_event. rewrite Hev. apply IH. intros ev' Hin. apply Hno. by right.
Qed.

Lemma after_events_cache evs w :
  status_cache (after_events evs w) =
    if existsb (λ ev, String.eqb (event ev) "put") evs
    then Some (manager_status w) else status_cache w.
Proof.
  revert w. induction evs as [|ev evs IH]; intros w; [done|].
  change (after_events (ev :: evs) w) with (after_events evs (after_event ev w)).
  rewrite IH. cbn [existsb]. unfold after_event.
  destruct (String.eqb (event ev) "put"); cbn; [|done].
  by destruct (existsb _ evs).
Qed.

Lemma has_put_existsb evs :
  has_put evs → existsb (λ ev, String.eqb (event ev) "put") evs = true.
Proof.
  intros (ev & Hin & Hput). apply existsb_exists. exists ev. split.
  - by apply list_elem_of_In.
  - by apply String.eqb_eq.
Qed.

Lemma detect_status_update_world evs fin w :
  (detect_status_update evs fin w).2 = after_events evs w.
Proof.
  unfold detect_status_update, try_except. rewrite watch_loop_eq.
  destruct fin as [|e]; [done|]. by destruct e.
Qed.

(** Events other than puts are ignored: a run of the watch loop over such
    events leaves the world, memo included, as it was. *)
Theorem non_put_events_ignored (evs : list WatchEvent) (fin : StreamEnd) (w : World) :
  (∀ ev, ev ∈ evs → event ev ≠ "put") →
  (detect_status_update evs fin w).2 = w.
Proof.
  intros Hno. rewrite detect_status_update_world. by apply after_events_no_put.
Qed.

Lemma non_put_events_ignored_witness :
  (detect_status_update [mkWatchEvent "delete"; mkWatchEvent "PUT"] Exhausted
     example_world).2 = example_world.
Proof.
  apply (non_put_events_ignored [mkWatchEvent "delete"; mkWatchEvent "PUT"]
           Exhausted example_world).
  intros ev Hin. apply list_elem_of_In in Hin. simpl in Hin.
  destruct Hin as [<-|[<-|[]]]; discriminate.
Defined.

(** Once a run of the watch loop has seen a put, however the run ends, the
    memo holds the value of the store, the next status read returns it, and
    nothing else of the world has changed. *)
Theorem put_event_syncs_memo (evs : list WatchEvent) (fin : StreamEnd) (w : World) :
  has_put evs →
  let w' := (detect_status_update evs fin w).2 in
  status_cache w' = Some (manager_status w)
  ∧ (get_manager_status w').1 = Ok (manager_status w)
  ∧ same_data w w'
  ∧ trace w' = trace w.
Proof.
  intros Hput w'. subst w'. rewrite detect_status_update_world.
  assert (Hcache : status_cache (after_events evs w) = Some (manager_status w)).
  { by rewrite after_events_cache, has_put_existsb. }
  split; [done|]. split.
  - unfold get_manager_status. by rewrite Hcache.
  - split; [apply after_events_data|apply after_events_trace].
Qed.

Lemma put_event_syncs_memo_witness :
  let w' := (detect_status_update [mkWatchEvent "put"] (Raises CancelledError)
               (set_status_cache (Some FROZEN) example_world)).2 in
  status_cache w' = Some RUNNING
  ∧ (get_manager_status w').1 = Ok RUNNING
  ∧ same_data (set_status_cache (Some FROZEN) example_world) w'
  ∧ trace w' = [].
Proof.
  apply (put_event_syncs_memo [mkWatchEvent "put"] (Raises CancelledError)
           (set_status_cache (Some FROZEN) example_world)).
  exists (mkWatchEvent "put"). split; [|reflexivity].
  apply list_elem_of_In. simpl. tauto.
Defined.

Lemma gate_admits_observed Req `{Inhabited Req} allowed w :
  gate_admits Req allowed w ↔ observed_status w ∈ allowed.
Proof.
  split; [|apply gate_in].
  intros Ha. destruct (decide (observed_status w ∈ allowed)) as [|Hout]; [done|].
  pose proof (gate_out Req allowed w Hout (λ _, mret no_content) inhabitant) as Hr.
  rewrite (Ha (λ _, mret no_content) inhabitant) in Hr. discriminate.
Qed.

(** From the write to the gate: after a status update to [s], once the watch
    loop has seen the put event, the gate decides on [s]: it admits exactly
    the operations whose allowed set holds [s]. *)
Theorem status_update_reaches_gate (Req : Type) `{Inhabited Req}
    (s : ManagerStatus) (v : json) (evs : list WatchEvent) (fin : StreamEnd)
    (allowed : gset ManagerStatus) (w : World) :
  has_put evs →
  let w1 := (update_manager_status (mkStatusUpdateBody s (Some v)) w).2 in
  let w2 := (detect_status_update evs fin w1).2 in
  observed_status w2 = s ∧ (gate_admits Req allowed w2 ↔ s ∈ allowed).
Proof.
  intros Hput w1 w2.
  assert (Hs : manager_status w1 = s).
  { subst w1. unfold update_manager_status. cbn. destruct (truthy v);
      cbv [kill_all_sessions config_update_manager_status]; run_monad; done. }
  assert (Hobs : observed_status w2 = s).
  { subst w2. rewrite detect_status_update_world. unfold observed_status.
    by rewrite after_events_cache, has_put_existsb, Hs. }
  split; [done|]. by rewrite gate_admits_observed, Hobs.
Qed.

Lemma status_update_reaches_gate_witness :
  let w1 := (update_manager_status (mkStatusUpdateBody FROZEN (Some (JBool false)))
               (set_status_cache (Some RUNNING) example_world)).2 in
  let w2 := (detect_status_update [mkWatchEvent "put"] (Raises CancelledError) w1).2 in
  observed_status w2 = FROZEN
  ∧ (gate_admits () ALL_ALLOWED w2 ↔ FROZEN ∈ ALL_ALLOWED).
Proof.
  apply (status_update_reaches_gate () FROZEN (JBool false) [mkWatchEvent "put"]
           (Raises CancelledError) ALL_ALLOWED
           (set_status_cache (Some RUNNING) example_world)).
  exists (mkWatchEvent "put"). split; [|reflexivity].
  apply list_elem_of_In. simpl. tauto.
Defined.

(** A wider allowed set admits whatever a narrower one admits; so what the
    gate of the writing operations lets through, the gate of the reading
    operations lets through as well. *)
Theorem gate_monotone (Req : Type) `{Inhabited Req}
    (allowed allowed' : gset ManagerStatus) (w : World) :
  allowed ⊆ allowed' →
  gate_admits Req allowed w → gate_admits Req allowed' w.
Proof.
  intros Hsub Ha. apply gate_in. apply Hsub. by apply (gate_admits_observed Req).
Qed.

Lemma gate_monotone_witness :
  gate_admits () READ_ALLOWED example_world.
Proof.
  apply (gate_monotone () ALL_ALLOWED READ_ALLOWED example_world).
  - unfold ALL_ALLOWED, READ_ALLOWED. set_solver.
  - apply gate_in. unfold ALL_ALLOWED. cbn. set_solver.
Defined.

(** ** Scheduler operations: validation, frame, repetition *)

Lemma check_string_Some v s : check_string v = Some s ↔ v = JStr s ∧ s ≠ "".
Proof.
  destruct v as [| | |s'| |]; cbn; try (split; [discriminate|intros [[=] _]]).
  destruct (String.eqb s' "") eqn:Hs.
  - apply String.eqb_eq in Hs. subst s'. split; [discriminate|].
    intros [[= <-] Hne]. done.
  - apply String.eqb_neq in Hs. split.
    + intros [= <-]. done.
    + intros [[= <-] _]. done.
Qed.

Lemma mapM_check_string_Some l ids :
  mapM check_string l = Some ids ↔ l = JStr <$> ids ∧ "" ∉ ids.
Proof.
  rewrite mapM_Some. split.
  - induction 1 as [|v s l ids Hv _ [IHl IHne]]; [split; [done|apply not_elem_of_nil]|].
    apply check_string_Some in Hv as [-> Hs]. rewrite fmap_cons. split.
    + by rewrite IHl.
    + intros Hin. apply elem_of_cons in Hin as [Heq|Hin]; [by subst|done].
  - intros [-> Hne]. induction ids as [|s ids IH]; [constructor|].
    rewrite fmap_cons. constructor.
    + apply check_string_Some. split; [done|]. intros ->. apply Hne. left.
    + apply IH. intros Hin. apply Hne. by right.
Qed.

(** The ['args'] of a scheduler operation pass the check exactly when they
    are a JSON list of non-empty strings; the checked value is that list. *)
Theorem scheduler_args_accepted (op : SchedulerOps) (raw_args : json)
    (ids : list string) :
  iv_scheduler_ops_args op raw_args = Some ids
  ↔ raw_args = JList (JStr <$> ids) ∧ "" ∉ ids.
Proof.
  assert (Hlist : check_list_of_strings raw_args = Some ids
                  ↔ raw_args = JList (JStr <$> ids) ∧ "" ∉ ids).
  { destruct raw_args as [| | | |l|]; cbn;
      try (split; [discriminate|intros [[=] _]]).
    rewrite mapM_check_string_Some. split; intros [Hl Hne]; split; congruence. }
  by destruct op.
Qed.

Lemma invalid_args_rejected_eq op raw_args w :
  iv_scheduler_ops_args op raw_args = None →
  perform_scheduler_ops op raw_args w =
    (Raise (InvalidAPIParameters
              ("Input validation failed for args with " +:+ SchedulerOps_str op)),
     w).
Proof. intros Hargs. unfold perform_scheduler_ops. by rewrite Hargs. Qed.

Lemma update_schedulable_dom flag args tbl :
  dom (update_schedulable flag args tbl) = dom tbl.
Proof.
  apply set_eq. intros id. rewrite !elem_of_dom, update_schedulable_lookup.
  destruct (tbl !! id); cbn; split; intros [x Hx]; by eauto.
Qed.

Lemma update_schedulable_status flag args tbl id row' :
  update_schedulable flag args tbl !! id = Some row' →
  ∃ row, tbl !! id = Some row ∧ agent_status row' = agent_status row.
Proof.
  rewrite update_schedulable_lookup. destruct (tbl !! id) as [row|]; [|discriminate].
  cbn. intros [= <-]. exists row. split; [done|]. by case_bool_decide.
Qed.

Lemma update_schedulable_idemp flag args tbl :
  update_schedulable flag args (update_schedulable flag args tbl)
  = update_schedulable flag args tbl.
Proof.
  apply map_eq. intros id. rewrite !update_schedulable_lookup.
  destruct (tbl !! id) as [row|]; [|done]. cbn. by case_bool_decide.
Qed.

Lemma matched_ids_update flag args args' tbl :
  matched_ids args' (update_schedulable flag args tbl) = matched_ids args' tbl.
Proof. unfold matched_ids. by rewrite update_schedulable_dom. Qed.

(** What a scheduler operation never does, whatever the request and however
    it ends: it adds no row and removes none, changes no agent's status,
    leaves the rows it was not given untouched, and leaves the status, the
    store and the sessions alone. *)
Theorem scheduler_op_frame (op : SchedulerOps) (raw_args : json) (w : World) :
  let w' := (perform_scheduler_ops op raw_args w).2 in
  dom (agents w') = dom (agents w)
  ∧ (∀ id row', agents w' !! id = Some row' →
       ∃ row, agents w !! id = Some row ∧ agent_status row' = agent_status row)
  ∧ (∀ args id, iv_scheduler_ops_args op raw_args = Some args → id ∉ args →
       agents w' !! id = agents w !! id)
  ∧ manager_status w' = manager_status w
  ∧ status_cache w' = status_cache w
  ∧ etcd w' = etcd w
  ∧ sessions w' = sessions w.
Proof.
  intros w'. subst w'.
  destruct (iv_scheduler_ops_args op raw_args) as [args|] eqn:Hargs.
  - rewrite (perform_scheduler_ops_eq op raw_args args w Hargs). cbn.
    case_bool_decide; cbn.
    + repeat split; try done. intros id row' Hrow. by exists row'.
    + split; [apply update_schedulable_dom|].
      split; [intros id row'; apply update_schedulable_status|].
      split; [|done]. intros args' id [= <-] Hout.
      by apply update_schedulable_others.
  - rewrite (invalid_args_rejected_eq op raw_args w Hargs). cbn.
    repeat split; try done. intros id row' Hrow. by exists row'.
Qed.

(** Every request ends in one of three ways: its args fail the check
    (InvalidAPIParameters, nothing changed); the rows counted are fewer than
    the ids (InstanceNotFound, table as before); or all are counted (204,
    flags written).  In particular the unknown-operation branch of the
    handler is never taken: both members of [SchedulerOps] are handled. *)
Theorem scheduler_op_outcomes (op : SchedulerOps) (raw_args : json) (w : World) :
  let r := perform_scheduler_ops op raw_args w in
  ((iv_scheduler_ops_args op raw_args = None
    ∧ r = (Raise (InvalidAPIParameters
                    ("Input validation failed for args with "
                       +:+ SchedulerOps_str op)), w))
   ∨ (∃ args, iv_scheduler_ops_args op raw_args = Some args
        ∧ size (matched_ids args (agents w)) < length args
        ∧ r.1 = Raise InstanceNotFound ∧ agents r.2 = agents w)
   ∨ (∃ args, iv_scheduler_ops_args op raw_args = Some args
        ∧ size (matched_ids args (agents w)) = length args
        ∧ r.1 = Ok no_content
        ∧ agents r.2 = update_schedulable (op_flag op) args (agents w)))
  ∧ ∀ msg, r.1 ≠ Raise (GenericBadRequest msg).
Proof.
  intros r. subst r.
  destruct (iv_scheduler_ops_args op raw_args) as [args|] eqn:Hargs.
  - rewrite (perform_scheduler_ops_eq op raw_args args w Hargs). cbn.
    pose proof (rowcount_le args (agents w)) as Hle.
    case_bool_decide as Hlt; cbn.
    + split; [|done]. right. left. by exists args.
    + split; [|done]. right. right. exists args. repeat split; try done. lia.
  - rewrite (invalid_args_rejected_eq op raw_args w Hargs). cbn.
    split; [|done]. by left.
Qed.

(** A request that succeeded succeeds again when repeated, and the second
    run leaves the table as the first one left it. *)
Theorem scheduler_op_repeatable (op : SchedulerOps) (raw_args : json) (w : World) :
  (perform_scheduler_ops op raw_args w).1 = Ok no_content →
  let w1 := (perform_scheduler_ops op raw_args w).2 in
  (perform_scheduler_ops op raw_args w1).1 = Ok no_content
  ∧ agents (perform_scheduler_ops op raw_args w1).2 = agents w1.
Proof.
  destruct (iv_scheduler_ops_args op raw_args) as [args|] eqn:Hargs.
  - rewrite (perform_scheduler_ops_eq op raw_args args w Hargs). cbn.
    case_bool_decide as Hlt; [discriminate|]. cbn. intros _.
    rewrite (perform_scheduler_ops_eq op raw_args args _ Hargs). cbn.
    rewrite matched_ids_update.
    rewrite bool_decide_eq_false_2 by done. cbn.
    split; [done|]. apply update_schedulable_idemp.
  - rewrite (invalid_args_rejected_eq op raw_args w Hargs). discriminate.
Qed.

Lemma scheduler_op_repeatable_witness :
  let w1 := (perform_scheduler_ops INCLUDE_AGENTS (JList [JStr "a1"; JStr "a2"])
               example_world).2 in
  (perform_scheduler_ops INCLUDE_AGENTS (JList [JStr "a1"; JStr "a2"]) w1).1
    = Ok no_content
  ∧ agents (perform_scheduler_ops INCLUDE_AGENTS
              (JList [JStr "a1"; JStr "a2"]) w1).2 = agents w1.
Proof.
  apply (scheduler_op_repeatable INCLUDE_AGENTS (JList [JStr "a1"; JStr "a2"])
           example_world).
  vm_compute. reflexivity.
Defined.

(** ** Health check: what it reads, what it leaves *)

Lemma join_ids_nil ids : join_ids ids = Some [] → ids = [].
Proof. destruct ids as [|[id|] ids]; [done| |done]. unfold join_ids. cbn.
  by destruct (mapM _ ids). Qed.

Lemma select_alive_ids_eq w :
  select_alive_ids w = (Ok (alive_ids w), log_effect EDbSelectAlive w).
Proof. reflexivity. Qed.

(** All agents asked for: one query, then the fan-out over the ALIVE ids. *)
Lemma health_check_all env w :
  health_check env (mkHealthCheckParams [] true) w =
    let w1 := log_effects [EDbBegin; EDbSelectAlive; EDbCommit] w in
    if bool_decide (alive_ids w = []) then
      (Ok (json_response (JObj [("managers", managers_entry env)])), w1)
    else
      match gather (_agent_health_check env <$> alive_ids w) with
      | Ok agent_infos =>
          (Ok (json_response
                 (JObj [("managers", managers_entry env);
                        ("agents", JList agent_infos)])),
           log_effects (EProbeSpawn <$> alive_ids w) w1)
      | Raise e => (Raise e, log_effects (EProbeSpawn <$> alive_ids w) w1)
      end.
Proof.
  unfold health_check. cbn. unfold with_transaction.
  rewrite (bind_ok _ _ w (alive_ids w)
             (log_effects [EDbBegin; EDbSelectAlive; EDbCommit] w)).
  - case_bool_decide; [done|]. run_monad. rewrite fan_out_eq.
    by destruct (gather _).
  - rewrite select_alive_ids_eq. cbn. unfold log_effects, log_effect. cbn.
    by rewrite <- !app_assoc.
Qed.

Lemma log_effects_data es w : same_data w (log_effects es w).
Proof. done. Qed.

(** The health check only reads: whatever the parameters and however the
    probes end, the agents table, the status, its memo, the store and the
    sessions are as before. *)
Theorem health_check_read_only (env : Env) (params : HealthCheckParams) (w : World) :
  let w' := (health_check env params w).2 in
  same_data w w' ∧ status_cache w' = status_cache w.
Proof.
  intros w'. subst w'. destruct params as [ids all].
  destruct (join_ids ids) as [given|] eqn:Hjoin.
  - destruct all.
    + destruct given as [|id given].
      * apply join_ids_nil in Hjoin as ->. rewrite health_check_all. cbn.
        case_bool_decide; [done|]. by destruct (gather _).
      * unfold health_check. cbn [agent_ids with_all_agents]. rewrite Hjoin. done.
    + rewrite (health_check_given env (mkHealthCheckParams ids false) given w
                 Hjoin eq_refl).
      case_bool_decide; [done|]. by destruct (gather _).
  - unfold health_check. cbn [agent_ids with_all_agents]. rewrite Hjoin. done.
Qed.

(** No ids and not all agents: the manager's own status is the whole
    answer, and nothing at all is done to get it: no query, no probe. *)
Theorem no_ids_managers_only (env : Env) (w : World) :
  health_check env (mkHealthCheckParams [] false) w
  = (Ok (json_response (JObj [("managers", managers_entry env)])), w).
Proof.
  by rewrite (health_check_given env (mkHealthCheckParams [] false) [] w
                eq_refl eq_refl).
Qed.

Lemma elem_of_alive_ids w id :
  id ∈ alive_ids w ↔ ∃ row, agents w !! id = Some row ∧ agent_status row = ALIVE.
Proof.
  unfold alive_ids. rewrite list_elem_of_fmap. split.
  - intros ([id' row] & -> & Hin). apply elem_of_map_to_list in Hin.
    apply map_lookup_filter_Some in Hin as [Hrow Halive]. by exists row.
  - intros (row & Hrow & Halive). exists (id, row). split; [done|].
    apply elem_of_map_to_list. by apply map_lookup_filter_Some.
Qed.

(** With all agents asked for, the probes spawned after the query are those
    of the ALIVE rows: every ALIVE agent once, no other agent. *)
Theorem all_agents_probes_alive (env : Env) (w : World) :
  let r := health_check env (mkHealthCheckParams [] true) w in
  trace r.2 = trace w ++ [EDbBegin; EDbSelectAlive; EDbCommit]
                ++ (EProbeSpawn <$> alive_ids w)
  ∧ NoDup (alive_ids w)
  ∧ ∀ id, id ∈ alive_ids w
          ↔ ∃ row, agents w !! id = Some row ∧ agent_status row = ALIVE.
Proof.
  intros r. subst r. split; [|split].
  - rewrite health_check_all. cbn. case_bool_decide as Hnil.
    + rewrite Hnil. cbn. done.
    + destruct (gather _); cbn; by rewrite <- !app_assoc.
  - apply NoDup_fst_map_to_list.
  - apply elem_of_alive_ids.
Qed.

(** The concurrency limit does not show in the result: the fan-out spawns
    one job per id and returns one record per id in the order of the ids, or
    raises what a probe raised. *)
Theorem fan_out_in_order (env : Env) (ids : list string) (w : World) :
  fan_out env ids w
  = lift_result (gather (_agent_health_check env <$> ids))
      (log_effects (EProbeSpawn <$> ids) w)
  ∧ ∀ agent_infos, gather (_agent_health_check env <$> ids) = Ok agent_infos →
      length agent_infos = length ids
      ∧ ∀ i id, ids !! i = Some id →
          Ok <$> agent_infos !! i = Some (_agent_health_check env id).
Proof.
  split; [apply fan_out_eq|].
  intros infos Hg. apply gather_ok in Hg.
  split.
  - rewrite <- (length_fmap Ok infos), <- Hg. by rewrite length_fmap.
  - intros i id Hid.
    assert (Hi : (_agent_health_check env <$> ids) !! i
                 = Some (_agent_health_check env id))
      by (by rewrite list_lookup_fmap, Hid).
    rewrite Hg, list_lookup_fmap in Hi. exact Hi.
Qed.

(** After the spawns the first four jobs are in flight and the others wait,
    in the order of the ids. *)
Theorem first_four_in_flight (ids : list string) :
  Scheduler.active (health_check_scheduler ids) = take 4 (health_check_jobs ids)
  ∧ Scheduler.pending (health_check_scheduler ids) = drop 4 (health_check_jobs ids).
Proof.
  destruct (foldl_spawn_jobs (Scheduler.create_scheduler health_check_limit)
              (health_check_jobs ids) (create_scheduler_wf _)) as (Hwf & Hlim & Happ).
  fold (health_check_scheduler ids) in Hwf, Hlim, Happ.
  change (Scheduler.limit (health_check_scheduler ids) = 4) in Hlim.
  rewrite app_nil_l in Happ. rewrite <- Happ.
  destruct Hwf as [Hle [Hq|Hfull]]; unfold Scheduler.active_count in *.
  - rewrite Hq, app_nil_r. rewrite take_ge, drop_ge by lia. done.
  - rewrite Hlim in Hfull. rewrite <- Hfull.
    by rewrite take_app_length, drop_app_length.
Qed.

(** ** Status report *)

Lemma fetch_manager_status_eq env w :
  fetch_manager_status env w =
    let st := JStr (ManagerStatus_value env (observed_status w)) in
    let n := JNum (Z.of_nat (count_active_sessions env)) in
    (Ok (json_response
           (JObj [("nodes",
                   JList [JObj [("id", manager_id (status_nodes_info env));
                                ("num_proc", num_proc env);
                                ("service_addr", JStr (service_addr env));
                                ("heartbeat_timeout", heartbeat_timeout env);
                                ("ssl_enabled", ssl_enabled env);
                                ("active_sessions", n);
                                ("status", st)]]);
                  ("status", st);
                  ("active_sessions", n)])),
     log_effects [EDbBegin; EDbCommit] (warmed w)).
Proof.
  unfold fetch_manager_status, try_except.
  rewrite (bind_ok _ _ _ _ _ (get_manager_status_eq w)).
  unfold with_transaction. cbn. unfold log_effects, log_effect. cbn.
  by rewrite <- app_assoc.
Qed.

(** The status report is consistent with itself: the two legacy fields of
    the answer repeat the status and the session count of its node entry;
    the count is of kernels of the table; and the report changes nothing but
    the memo it may fill. *)
Theorem status_report_consistent (env : StatusEnv) (w : World) :
  let r := fetch_manager_status env w in
  ∃ node st n,
    r.1 = Ok (json_response
                (JObj [("nodes", JList [JObj node]); ("status", st);
                       ("active_sessions", JNum (Z.of_nat n))]))
    ∧ dict_get "status" node = Some st
    ∧ dict_get "active_sessions" node = Some (JNum (Z.of_nat n))
    ∧ st = JStr (ManagerStatus_value env (observed_status w))
    ∧ n ≤ length (kernels env)
    ∧ same_data w r.2
    ∧ trace r.2 = trace w ++ [EDbBegin; EDbCommit].
Proof.
  intros r. subst r. rewrite fetch_manager_status_eq. cbn.
  eexists _, _, (count_active_sessions env).
  split; [reflexivity|]. repeat split. apply length_filter.
Qed.

Lemma warmed_observed w : observed_status (warmed w) = observed_status w.
Proof. done. Qed.

(** The status reported is the status the gate decides on: after the
    report, as before it, the gate admits exactly when the reported status is
    in the allowed set. *)
Theorem status_report_matches_gate (Req : Type) `{Inhabited Req}
    (allowed : gset ManagerStatus) (env : StatusEnv) (w : World) :
  let r := fetch_manager_status env w in
  (∃ o, r.1 = Ok (json_response (JObj o))
        ∧ dict_get "status" o
          = Some (JStr (ManagerStatus_value env (observed_status w))))
  ∧ (gate_admits Req allowed r.2 ↔ observed_status w ∈ allowed)
  ∧ (gate_admits Req allowed r.2 ↔ gate_admits Req allowed w).
Proof.
  intros r. subst r. rewrite fetch_manager_status_eq. cbn.
  split; [eexists; split; reflexivity|].
  split; by rewrite !(gate_admits_observed Req).
Qed.

Lemma dict_get_set k k' v d :
  dict_get k (dict_set k' v d) = if String.eqb k k' then Some v else dict_get k d.
Proof.
  induction d as [|[k0 v0] d IH]; cbn.
  - by destruct (String.eqb k k').
  - destruct (String.eqb k' k0) eqn:Hk0; cbn.
    + apply String.eqb_eq in Hk0 as ->. by destruct (String.eqb k k0).
    + rewrite IH. destruct (String.eqb k k0) eqn:Hk; [|done].
      apply String.eqb_eq in Hk as ->.
      rewrite String.eqb_sym in Hk0. by rewrite Hk0.
Qed.

(** [d.update(other)] leaves a key alone that [other] does not have. *)
Lemma dict_get_update_other k d other :
  dict_get k other = None → dict_get k (dict_update d other) = dict_get k d.
Proof.
  unfold dict_update. revert d. induction other as [|[k0 v0] other IH]; intros d; [done|].
  cbn. destruct (String.eqb k k0) eqn:Hk; [discriminate|]. intros Hother.
  rewrite IH by done. by rewrite dict_get_set, Hk.
Qed.

(** The status report and the health check name the manager alike: from the
    same node information both answers carry the same [id], unless the host
    health payload brings an [id] of its own. *)
Theorem same_manager_id (senv : StatusEnv) (env : Env) (w w' : World) :
  status_nodes_info senv = manager_nodes_info env →
  dict_get "id" (host_health env) = None →
  ∃ node manager,
    (fetch_manager_status senv w).1
      = Ok (json_response
              (JObj [("nodes", JList [JObj node]);
                     ("status",
                      JStr (ManagerStatus_value senv (observed_status w)));
                     ("active_sessions",
                      JNum (Z.of_nat (count_active_sessions senv)))]))
    ∧ (health_check env (mkHealthCheckParams [] false) w').1
      = Ok (json_response (JObj [("managers", JList [JObj manager])]))
    ∧ dict_get "id" node = Some (manager_id (manager_nodes_info env))
    ∧ dict_get "id" manager = Some (manager_id (manager_nodes_info env)).
Proof.
  intros Hinfo Hhost. rewrite fetch_manager_status_eq.
  rewrite (health_check_given env (mkHealthCheckParams [] false) [] w'
             eq_refl eq_refl). cbn.
  eexists _, _. split; [reflexivity|]. split; [reflexivity|].
  split; [by rewrite Hinfo|].
  by rewrite dict_get_update_other.
Qed.

Lemma same_manager_id_witness :
  ∃ node manager,
    (fetch_manager_status example_status_env example_world).1
      = Ok (json_response
              (JObj [("nodes", JList [JObj node]);
                     ("status",
                      JStr (ManagerStatus_value example_status_env
                              (observed_status example_world)));
                     ("active_sessions",
                      JNum (Z.of_nat (count_active_sessions example_status_env)))]))
    ∧ (health_check
         (mkEnv [("m1", JStr "up")] [("uptime", JNum 5)] "20.03" "v5" ∅ ∅)
         (mkHealthCheckParams [] false) empty_world).1
      = Ok (json_response (JObj [("managers", JList [JObj manager])]))
    ∧ dict_get "id" node = Some (JStr "m1")
    ∧ dict_get "id" manager = Some (JStr "m1").
Proof.
  apply (same_manager_id example_status_env
           (mkEnv [("m1", JStr "up")] [("uptime", JNum 5)] "20.03" "v5" ∅ ∅)
           example_world empty_world).
  - reflexivity.
  - reflexivity.
Defined.

(** The count on an example: of three kernels one holds resources under the
    default role. *)
Lemma count_active_sessions_example :
  count_active_sessions example_status_env = 1.
Proof. vm_compute. reflexivity. Qed.
